(** * SYN-flood admission control: the XDP programs and their monitors

    A shallow embedding of the packet filters of [XDP_only.py] and
    [xdp_firewall_shim_con_metriche_v2.py] (the C text handed to BCC), of
    the end-of-run summaries of the three monitors, and of the rule table
    built by [iptables_only.py].

    Conventions.
    - A frame is a [list byte]; packet pointers are byte offsets from
      [ctx->data], so [data = 0] and [data_end = length frame].
    - [u64] and [u32] values are [Z] with the wrap-around written out.
    - A BPF hash map is a [gmap Z _] together with its [max_entries];
      a BPF array is a [list Z].
    - One invocation of a program is a computation in the monad [M]: it
      reads the clock, threads the maps, records every map access in an
      event log, and faults on a packet read outside [data, data_end).
    - Invocations are serialised: one packet is processed at a time. *)

From Stdlib Require Import ZArith List Lia Bool QArith String.
From Stdlib.Strings Require Import Byte.
From stdpp Require Import gmap list.

Local Open Scope Z_scope.

(* ------------------------------------------------------------------ *)
(** ** Machine integers *)

Definition wrap64 (z : Z) : Z := z mod 2 ^ 64.

(** [bpf_ntohs] on a little-endian host: swap the two bytes of a [u16]. *)
Definition bpf_ntohs (v : Z) : Z :=
  Z.lor (Z.shiftl (Z.land v 255) 8) (Z.land (Z.shiftr v 8) 255).

(* ------------------------------------------------------------------ *)
(** ** Constants of the C text *)

Definition ETH_P_IP : Z := 0x0800.
Definition TIME_WINDOW_NS : Z := 2000000000.
Definition THRESHOLD : Z := 10.
Definition NEXTHDR_TCP : Z := 6.

(** [BPF_HASH(_, u32, _, 16384)] *)
Definition HASH_MAX_ENTRIES : Z := 16384.

Definition sizeof_ethhdr : Z := 14.
Definition sizeof_iphdr : Z := 20.
Definition sizeof_tcphdr : Z := 20.

(** Field offsets of [struct ethhdr], and of the shim [struct iphdr] and
    [struct tcphdr]. *)
Definition off_h_proto : Z := 12.
Definition off_ihl_version : Z := 0.
Definition off_protocol : Z := 9.
Definition off_saddr : Z := 12.
Definition off_tcp_flags : Z := 12.

(** Bit positions inside the [__u16] bit-field word of [struct tcphdr]
    ([res1:4, doff:4, fin:1, syn:1, rst:1, psh:1, ack:1, ...]). *)
Definition bit_syn : Z := 9.
Definition bit_ack : Z := 12.

Inductive xdp_action := XDP_ABORTED | XDP_DROP | XDP_PASS.

Global Instance xdp_action_eq_dec : EqDecision xdp_action.
Proof. solve_decision. Defined.

(* ------------------------------------------------------------------ *)
(** ** Maps and state *)

Record rate_val := { last_ts : Z; count : Z }.

Record bpf_state := {
  rate_limit_map : gmap Z rate_val;
  (** only declared by the blocklist variant; the simple one never
      touches it *)
  ip_blocked_map : gmap Z Z;
  (** [BPF_ARRAY(stats_map, u64, n)]: [n] is the length *)
  stats_map : list Z
}.

Inductive map_id := RATE_LIMIT_MAP | IP_BLOCKED_MAP | STATS_MAP.

Global Instance map_id_eq_dec : EqDecision map_id.
Proof. solve_decision. Defined.

(** What an invocation did to the maps, in program order. *)
Inductive event :=
| EvLookup (m : map_id) (key : Z)
| EvStore (m : map_id) (key : Z)       (* write through a value pointer *)
| EvUpdate (m : map_id) (key : Z)      (* [map.update] *)
| EvFetchAdd (m : map_id) (key : Z).   (* [__sync_fetch_and_add] *)

Definition event_map (e : event) : map_id :=
  match e with
  | EvLookup m _ | EvStore m _ | EvUpdate m _ | EvFetchAdd m _ => m
  end.

Definition event_key (e : event) : Z :=
  match e with
  | EvLookup _ k | EvStore _ k | EvUpdate _ k | EvFetchAdd _ k => k
  end.

(** An event that writes to a map. *)
Definition is_write (e : event) : bool :=
  match e with
  | EvLookup _ _ => false
  | _ => true
  end.

(* ------------------------------------------------------------------ *)
(** ** The monad of one program invocation *)

Inductive outcome (A : Type) :=
| Fault                                   (* out-of-bounds packet read *)
| Done (a : A) (s : bpf_state) (log : list event).
Arguments Fault {A}.
Arguments Done {A} a s log.

(** Clock value of the invocation, then the state. *)
Definition M (A : Type) : Type := Z -> bpf_state -> outcome A.

Definition ret {A} (a : A) : M A := fun _ s => Done a s [].

Definition bind {A B} (c : M A) (k : A -> M B) : M B :=
  fun now s =>
    match c now s with
    | Fault => Fault
    | Done a s1 l1 =>
        match k a now s1 with
        | Fault => Fault
        | Done b s2 l2 => Done b s2 (l1 ++ l2)
        end
    end.

Notation "x <- c1 ;; c2" := (bind c1 (fun x => c2))
  (at level 100, c1 at next level, right associativity).
Notation "c1 ;;; c2" := (bind c1 (fun _ => c2))
  (at level 100, right associativity).

Definition fault {A} : M A := fun _ _ => Fault.

Definition bpf_ktime_get_ns : M Z := fun now s => Done now s [].

(* ------------------------------------------------------------------ *)
(** ** Packet access *)

Definition xdp_md := list byte.

Definition ctx_data (ctx : xdp_md) : Z := 0.
Definition ctx_data_end (ctx : xdp_md) : Z := Z.of_nat (length ctx).

Definition byte_val (b : byte) : Z := Z.of_N (Byte.to_N b).

(** A one-byte read at offset [p]; outside the frame it faults. *)
Definition load_u8 (ctx : xdp_md) (p : Z) : M Z :=
  if p <? 0 then fault
  else match ctx !! Z.to_nat p with
       | Some b => ret (byte_val b)
       | None => fault
       end.

(** Little-endian multi-byte reads. *)
Definition load_u16 (ctx : xdp_md) (p : Z) : M Z :=
  b0 <- load_u8 ctx p ;;
  b1 <- load_u8 ctx (p + 1) ;;
  ret (b0 + 256 * b1).

Definition load_u32 (ctx : xdp_md) (p : Z) : M Z :=
  b0 <- load_u8 ctx p ;;
  b1 <- load_u8 ctx (p + 1) ;;
  b2 <- load_u8 ctx (p + 2) ;;
  b3 <- load_u8 ctx (p + 3) ;;
  ret (b0 + 256 * b1 + 65536 * b2 + 16777216 * b3).

(** [iph->ihl]: the low nibble of the first byte of the IP header. *)
Definition load_ihl (ctx : xdp_md) (iph : Z) : M Z :=
  b <- load_u8 ctx (iph + off_ihl_version) ;;
  ret (Z.land b 15).

(** One flag of the TCP bit-field word. *)
Definition load_tcp_flag (ctx : xdp_md) (tcph : Z) (bit : Z) : M bool :=
  w <- load_u16 ctx (tcph + off_tcp_flags) ;;
  ret (Z.testbit w bit).

(* ------------------------------------------------------------------ *)
(** ** Map helpers *)

Definition rate_lookup (key : Z) : M (option rate_val) :=
  fun _ s => Done (rate_limit_map s !! key) s [EvLookup RATE_LIMIT_MAP key].

(** Assignment through the pointer returned by [lookup]: the element is
    changed in place. *)
Definition rate_store (key : Z) (v : rate_val) : M rate_val :=
  fun _ s =>
    Done v
      {| rate_limit_map := <[key := v]> (rate_limit_map s);
         ip_blocked_map := ip_blocked_map s;
         stats_map := stats_map s |}
      [EvStore RATE_LIMIT_MAP key].

(** [map.update(&key, &val)] on a hash map with [BPF_ANY]: an existing
    element is replaced; a new one is inserted only while the map holds
    fewer than [max_entries] elements, otherwise the call fails and the
    map is unchanged. The programs ignore the return value. *)
Definition hash_update {V} (m : gmap Z V) (key : Z) (v : V) : gmap Z V :=
  match m !! key with
  | Some _ => <[key := v]> m
  | None =>
      if Z.of_nat (size m) <? HASH_MAX_ENTRIES then <[key := v]> m else m
  end.

Definition rate_update (key : Z) (v : rate_val) : M unit :=
  fun _ s =>
    Done tt
      {| rate_limit_map := hash_update (rate_limit_map s) key v;
         ip_blocked_map := ip_blocked_map s;
         stats_map := stats_map s |}
      [EvUpdate RATE_LIMIT_MAP key].

Definition blocked_lookup (key : Z) : M (option Z) :=
  fun _ s => Done (ip_blocked_map s !! key) s [EvLookup IP_BLOCKED_MAP key].

Definition blocked_update (key : Z) (v : Z) : M unit :=
  fun _ s =>
    Done tt
      {| rate_limit_map := rate_limit_map s;
         ip_blocked_map := hash_update (ip_blocked_map s) key v;
         stats_map := stats_map s |}
      [EvUpdate IP_BLOCKED_MAP key].

(** [stats_map.lookup(&key)]: a pointer to the slot, or NULL when the
    index is outside the array. *)
Definition stats_lookup (key : Z) : M (option Z) :=
  fun _ s =>
    Done (if key <? 0 then None else stats_map s !! Z.to_nat key) s
         [EvLookup STATS_MAP key].

(** [__sync_fetch_and_add(ptr, 1)] on a slot obtained from [lookup]. *)
Definition sync_fetch_and_add (key : Z) (d : Z) : M unit :=
  fun _ s =>
    Done tt
      {| rate_limit_map := rate_limit_map s;
         ip_blocked_map := ip_blocked_map s;
         stats_map :=
           match stats_map s !! Z.to_nat key with
           | Some v => <[Z.to_nat key := wrap64 (v + d)]> (stats_map s)
           | None => stats_map s
           end |}
      [EvFetchAdd STATS_MAP key].

(* ------------------------------------------------------------------ *)
(** ** [check_rate_limit] (the same text in both XDP files) *)

Definition check_rate_limit (src_ip : Z) : M Z :=
  now <- bpf_ktime_get_ns ;;
  rv <- rate_lookup src_ip ;;
  match rv with
  | None =>
      let val := {| last_ts := now; count := 1 |} in
      rate_update src_ip val ;;;
      ret 0
  | Some rv =>
      if wrap64 (now - last_ts rv) >? TIME_WINDOW_NS then
        rv <- rate_store src_ip {| last_ts := now; count := 1 |} ;;
        rate_update src_ip rv ;;;
        ret 0
      else
        rv <- rate_store src_ip
                {| last_ts := last_ts rv; count := wrap64 (count rv + 1) |} ;;
        rate_update src_ip rv ;;;
        if count rv >? THRESHOLD then ret 1 else ret 0
  end.

(* ------------------------------------------------------------------ *)
(** ** [xdp_simple_firewall] of XDP_only.py *)

Definition xdp_simple_firewall (ctx : xdp_md) : M xdp_action :=
  let data_end := ctx_data_end ctx in
  let data := ctx_data ctx in
  let eth := data in
  if eth + sizeof_ethhdr >? data_end then ret XDP_PASS else
  h_proto <- load_u16 ctx (eth + off_h_proto) ;;
  if negb (bpf_ntohs h_proto =? ETH_P_IP) then ret XDP_PASS else
  let iph := data + sizeof_ethhdr in
  if iph + sizeof_iphdr >? data_end then ret XDP_PASS else
  protocol <- load_u8 ctx (iph + off_protocol) ;;
  if negb (protocol =? NEXTHDR_TCP) then ret XDP_PASS else
  ihl <- load_ihl ctx iph ;;
  let tcph := iph + ihl * 4 in
  if tcph + sizeof_tcphdr >? data_end then ret XDP_PASS else
  syn <- load_tcp_flag ctx tcph bit_syn ;;
  ack <- load_tcp_flag ctx tcph bit_ack ;;
  (* Update total SYN counter *)
  (if syn && negb ack then
     let key_total := 0 in
     val_total <- stats_lookup key_total ;;
     match val_total with
     | Some _ => sync_fetch_and_add key_total 1
     | None => ret tt
     end
   else ret tt) ;;;
  (* Rate limit only SYN packets *)
  if syn && negb ack then
    src_ip <- load_u32 ctx (iph + off_saddr) ;;
    r <- check_rate_limit src_ip ;;
    if negb (r =? 0) then
      let key_drop := 1 in
      val_drop <- stats_lookup key_drop ;;
      match val_drop with
      | Some _ => sync_fetch_and_add key_drop 1
      | None => ret tt
      end ;;;
      ret XDP_DROP
    else ret XDP_PASS
  else ret XDP_PASS.

(* ------------------------------------------------------------------ *)
(** ** [xdp_firewall] of xdp_firewall_shim_con_metriche_v2.py *)

Definition xdp_firewall (ctx : xdp_md) : M xdp_action :=
  let data_end := ctx_data_end ctx in
  let data := ctx_data ctx in
  let eth := data in
  if eth + sizeof_ethhdr >? data_end then ret XDP_PASS else
  h_proto <- load_u16 ctx (eth + off_h_proto) ;;
  if negb (bpf_ntohs h_proto =? ETH_P_IP) then ret XDP_PASS else
  let iph := data + sizeof_ethhdr in
  if iph + sizeof_iphdr >? data_end then ret XDP_PASS else
  protocol <- load_u8 ctx (iph + off_protocol) ;;
  if negb (protocol =? NEXTHDR_TCP) then ret XDP_PASS else
  ihl <- load_ihl ctx iph ;;
  let tcph := iph + ihl * 4 in
  if tcph + sizeof_tcphdr >? data_end then ret XDP_PASS else
  src_ip <- load_u32 ctx (iph + off_saddr) ;;
  syn <- load_tcp_flag ctx tcph bit_syn ;;
  ack <- load_tcp_flag ctx tcph bit_ack ;;
  (* Log SYN: bpf_trace_printk has no effect on maps or verdict *)
  (* Aggiorna contatore globale SYN *)
  let key := 0 in
  val <- stats_lookup key ;;
  match val with
  | Some _ => sync_fetch_and_add key 1
  | None => ret tt
  end ;;;
  (* Gestione SYN con rate-limit e blocco *)
  if syn && negb ack then
    blocked <- blocked_lookup src_ip ;;
    match blocked with
    | Some _ => ret XDP_DROP
    | None =>
        r <- check_rate_limit src_ip ;;
        if negb (r =? 0) then
          let one := 1 in
          blocked_update src_ip one ;;;
          ret XDP_DROP
        else ret XDP_PASS
    end
  else ret XDP_PASS.

(* ------------------------------------------------------------------ *)
(** ** Running a program over a sequence of arrivals *)

(** One arrival: the value [bpf_ktime_get_ns] returns during the
    invocation, and the frame. *)
Definition arrival : Type := Z * xdp_md.

Fixpoint run (prog : xdp_md -> M xdp_action) (s : bpf_state)
    (tr : list arrival) : outcome (list xdp_action) :=
  match tr with
  | [] => Done [] s []
  | (now, ctx) :: tr' =>
      match prog ctx now s with
      | Fault => Fault
      | Done v s1 l1 =>
          match run prog s1 tr' with
          | Fault => Fault
          | Done vs s2 l2 => Done (v :: vs) s2 (l1 ++ l2)
          end
      end
  end.

(** State of a freshly loaded program: empty hash maps, zeroed array of
    [n] slots. *)
Definition init_state (n : nat) : bpf_state :=
  {| rate_limit_map := ∅; ip_blocked_map := ∅; stats_map := replicate n 0 |}.

(** [stats_map] has 2 slots in XDP_only.py and 1 in the blocklist file. *)
Definition init_simple : bpf_state := init_state 2.
Definition init_blocklist : bpf_state := init_state 1.

(* ------------------------------------------------------------------ *)
(** ** The header view computed by the common prefix of both programs *)

Definition byte_at (ctx : xdp_md) (p : Z) : Z :=
  match ctx !! Z.to_nat p with
  | Some b => byte_val b
  | None => 0
  end.

Definition word_at (ctx : xdp_md) (p : Z) : Z :=
  byte_at ctx p + 256 * byte_at ctx (p + 1).

Definition dword_at (ctx : xdp_md) (p : Z) : Z :=
  byte_at ctx p + 256 * byte_at ctx (p + 1) + 65536 * byte_at ctx (p + 2)
  + 16777216 * byte_at ctx (p + 3).

Definition frame_len (ctx : xdp_md) : Z := Z.of_nat (length ctx).
Definition ethertype (ctx : xdp_md) : Z := bpf_ntohs (word_at ctx 12).
Definition ip_protocol (ctx : xdp_md) : Z := byte_at ctx 23.
Definition ip_ihl (ctx : xdp_md) : Z := Z.land (byte_at ctx 14) 15.
Definition tcp_offset (ctx : xdp_md) : Z := 14 + ip_ihl ctx * 4.
Definition ip_saddr (ctx : xdp_md) : Z := dword_at ctx 26.
Definition tcp_syn (ctx : xdp_md) : bool :=
  Z.testbit (word_at ctx (tcp_offset ctx + 12)) bit_syn.
Definition tcp_ack (ctx : xdp_md) : bool :=
  Z.testbit (word_at ctx (tcp_offset ctx + 12)) bit_ack.

Inductive frame_class :=
| Malformed                               (* a bounds check failed *)
| NotApplicable                           (* not IPv4, or not TCP *)
| TcpSeg (src : Z) (syn ack : bool).

(** The checks of the programs, in their order. *)
Definition header_view (ctx : xdp_md) : frame_class :=
  if frame_len ctx <? 14 then Malformed
  else if negb (ethertype ctx =? ETH_P_IP) then NotApplicable
  else if frame_len ctx <? 34 then Malformed
  else if negb (ip_protocol ctx =? NEXTHDR_TCP) then NotApplicable
  else if frame_len ctx <? tcp_offset ctx + 20 then Malformed
  else TcpSeg (ip_saddr ctx) (tcp_syn ctx) (tcp_ack ctx).

(** The shared prefix of both programs: the three bounds checks and the
    two protocol tests, after which every later read is inside the
    frame. *)
Inductive view_spec (ctx : xdp_md) : frame_class -> Prop :=
| VShortEth : frame_len ctx < 14 -> view_spec ctx Malformed
| VNotIp : 14 <= frame_len ctx -> ethertype ctx <> ETH_P_IP ->
    view_spec ctx NotApplicable
| VShortIp : 14 <= frame_len ctx < 34 -> ethertype ctx = ETH_P_IP ->
    view_spec ctx Malformed
| VNotTcp : 34 <= frame_len ctx -> ethertype ctx = ETH_P_IP ->
    ip_protocol ctx <> NEXTHDR_TCP -> view_spec ctx NotApplicable
| VShortTcp : 34 <= frame_len ctx < tcp_offset ctx + 20 ->
    ethertype ctx = ETH_P_IP -> ip_protocol ctx = NEXTHDR_TCP ->
    view_spec ctx Malformed
| VTcp : 34 <= frame_len ctx -> tcp_offset ctx + 20 <= frame_len ctx ->
    ethertype ctx = ETH_P_IP -> ip_protocol ctx = NEXTHDR_TCP ->
    view_spec ctx (TcpSeg (ip_saddr ctx) (tcp_syn ctx) (tcp_ack ctx)).

Definition pure_syn (syn ack : bool) : bool := syn && negb ack.

(** A frame the programs treat as a pure SYN of source [src]. *)
Definition is_pure_syn_from (src : Z) (ctx : xdp_md) : Prop :=
  header_view ctx = TcpSeg src true false.

(** What [xdp_simple_firewall] does once the headers are read. *)
Definition simple_engine (v : frame_class) : M xdp_action :=
  match v with
  | TcpSeg src_ip true false =>
      (val_total <- stats_lookup 0 ;;
       match val_total with
       | Some _ => sync_fetch_and_add 0 1
       | None => ret tt
       end) ;;;
      r <- check_rate_limit src_ip ;;
      if negb (r =? 0) then
        val_drop <- stats_lookup 1 ;;
        match val_drop with
        | Some _ => sync_fetch_and_add 1 1
        | None => ret tt
        end ;;;
        ret XDP_DROP
      else ret XDP_PASS
  | _ => ret XDP_PASS
  end.

(** What [xdp_firewall] does once the headers are read. *)
Definition blocklist_engine (v : frame_class) : M xdp_action :=
  match v with
  | TcpSeg src_ip syn ack =>
      val <- stats_lookup 0 ;;
      match val with
      | Some _ => sync_fetch_and_add 0 1
      | None => ret tt
      end ;;;
      if syn && negb ack then
        blocked <- blocked_lookup src_ip ;;
        match blocked with
        | Some _ => ret XDP_DROP
        | None =>
            r <- check_rate_limit src_ip ;;
            if negb (r =? 0) then
              blocked_update src_ip 1 ;;;
              ret XDP_DROP
            else ret XDP_PASS
        end
      else ret XDP_PASS
  | _ => ret XDP_PASS
  end.

(* ------------------------------------------------------------------ *)
(** ** Functional reading of the engines

    The net effect of one invocation, used to state what a run leaves
    behind. Each is proved equal to the monadic text below. *)

Definition with_maps (r : gmap Z rate_val) (b : gmap Z Z) (st : list Z)
    : bpf_state :=
  {| rate_limit_map := r; ip_blocked_map := b; stats_map := st |}.

(** A guarded [__sync_fetch_and_add(slot, 1)] on slot [i]. *)
Definition bump (i : nat) (st : list Z) : list Z :=
  match st !! i with
  | Some v => <[i := wrap64 (v + 1)]> st
  | None => st
  end.

Definition expired (rv : rate_val) (now : Z) : bool :=
  wrap64 (now - last_ts rv) >? TIME_WINDOW_NS.

(** Return value of [check_rate_limit] and the record it leaves under the
    key, from the record found there. *)
Definition rl_result (found : option rate_val) (now : Z) : Z * rate_val :=
  match found with
  | None => (0, {| last_ts := now; count := 1 |})
  | Some rv =>
      if expired rv now then (0, {| last_ts := now; count := 1 |})
      else
        let rv' := {| last_ts := last_ts rv; count := wrap64 (count rv + 1) |} in
        (if count rv' >? THRESHOLD then 1 else 0, rv')
  end.

Definition rl_log (found : option rate_val) (key : Z) : list event :=
  match found with
  | None => [EvLookup RATE_LIMIT_MAP key; EvUpdate RATE_LIMIT_MAP key]
  | Some _ => [EvLookup RATE_LIMIT_MAP key; EvStore RATE_LIMIT_MAP key;
               EvUpdate RATE_LIMIT_MAP key]
  end.

(** The guarded counter increment on slot [i], as a log. *)
Definition bump_log (i : nat) (st : list Z) : list event :=
  match st !! i with
  | Some _ => [EvLookup STATS_MAP (Z.of_nat i); EvFetchAdd STATS_MAP (Z.of_nat i)]
  | None => [EvLookup STATS_MAP (Z.of_nat i)]
  end.

(** Verdict of the rate limiter on a pure SYN. *)
Definition rl_verdict (found : option rate_val) (now : Z) : xdp_action :=
  if (rl_result found now).1 =? 0 then XDP_PASS else XDP_DROP.

(** Boolean form of [is_pure_syn_from]. *)
Definition pure_syn_fromb (src : Z) (ctx : xdp_md) : bool :=
  match header_view ctx with
  | TcpSeg a true false => a =? src
  | _ => false
  end.

(** A frame that reaches the SYN test, that is a parsed TCP-over-IPv4
    segment. *)
Definition is_tcp_seg (ctx : xdp_md) : bool :=
  match header_view ctx with
  | TcpSeg _ _ _ => true
  | _ => false
  end.

Definition is_pure_syn (ctx : xdp_md) : bool :=
  match header_view ctx with
  | TcpSeg _ true false => true
  | _ => false
  end.

(** Arrival times and verdicts of the pure SYNs of [src] in a run. *)
Fixpoint src_times (src : Z) (tr : list arrival) : list Z :=
  match tr with
  | [] => []
  | (now, ctx) :: tr' =>
      if pure_syn_fromb src ctx then now :: src_times src tr'
      else src_times src tr'
  end.

Fixpoint src_verdicts (src : Z) (tr : list arrival) (vs : list xdp_action)
    : list xdp_action :=
  match tr, vs with
  | (_, ctx) :: tr', v :: vs' =>
      if pure_syn_fromb src ctx then v :: src_verdicts src tr' vs'
      else src_verdicts src tr' vs'
  | _, _ => []
  end.

(** [n] arrivals of the same frame at times [t, t+1, ...]. *)
Fixpoint burst (n : nat) (t : Z) (ctx : xdp_md) : list arrival :=
  match n with
  | O => []
  | S n' => (t, ctx) :: burst n' (t + 1) ctx
  end.

(** The first pure SYN of a source at [t1] starts a window: there is no
    record and the table has room, or the record's window is over. *)
Definition opens_window (s : bpf_state) (src t1 : Z) : Prop :=
  match rate_limit_map s !! src with
  | None => Z.of_nat (size (rate_limit_map s)) < HASH_MAX_ENTRIES
  | Some rv => expired rv t1 = true
  end.

(* ------------------------------------------------------------------ *)
(** ** The two deployments *)

Inductive variant :=
| Transient      (* XDP_only.py *)
| Persistent.    (* xdp_firewall_shim_con_metriche_v2.py *)

Definition program (v : variant) : xdp_md -> M xdp_action :=
  match v with
  | Transient => xdp_simple_firewall
  | Persistent => xdp_firewall
  end.

Definition loaded (v : variant) : bpf_state :=
  match v with
  | Transient => init_simple
  | Persistent => init_blocklist
  end.

(** The states a deployment can be in between two invocations. *)
Definition reachable (v : variant) (s : bpf_state) : Prop :=
  exists hist vs l, run (program v) (loaded v) hist = Done vs s l.

(** In the blocklist variant the source is not in [ip_blocked_map]; the
    simple variant has no such map. *)
Definition not_blocked (v : variant) (s : bpf_state) (src : Z) : Prop :=
  match v with
  | Transient => True
  | Persistent => ip_blocked_map s !! src = None
  end.

(** A timestamp inside the window that started at [t1]. *)
Definition in_window (t1 t : Z) : Prop := t1 <= t <= t1 + TIME_WINDOW_NS.

(** A write to the flow record of [src]. *)
Definition writes_flow (src : Z) (e : event) : Prop :=
  is_write e = true /\ event_map e = RATE_LIMIT_MAP /\ event_key e = src.

(** An access, read or write, to the rate-limit or blocklist map. *)
Definition touches_flow_maps (e : event) : Prop :=
  event_map e = RATE_LIMIT_MAP \/ event_map e = IP_BLOCKED_MAP.

(** Every blocked source has a flow record. *)
Definition blocked_known (s : bpf_state) : Prop :=
  forall k, is_Some (ip_blocked_map s !! k) -> is_Some (rate_limit_map s !! k).

(** The rate-limit table holds [max_entries] elements. *)
Definition table_full (s : bpf_state) : Prop :=
  HASH_MAX_ENTRIES <= Z.of_nat (size (rate_limit_map s)).

(** Projections of an outcome, for stating concrete runs. *)
Definition verdicts {A} (o : outcome A) : option A :=
  match o with
  | Done a _ _ => Some a
  | Fault => None
  end.

Definition final_state {A} (o : outcome A) : option bpf_state :=
  match o with
  | Done _ s _ => Some s
  | Fault => None
  end.

(* ------------------------------------------------------------------ *)
(** ** Example frames *)

Definition eth_ipv4 : list byte :=
  [x00; x00; x00; x00; x00; x01; x00; x00; x00; x00; x00; x02; x08; x00].

(** A 20-byte IPv4 header with first byte [vihl], protocol TCP and source
    address bytes [a.b.c.d]. *)
Definition ipv4_hdr (vihl a b c d : byte) : list byte :=
  [vihl; x00; x00; x28; x00; x00; x00; x00; x40; x06; x00; x00;
   a; b; c; d; x0a; x00; x00; x01].

(** A 20-byte TCP header with flag byte [fl]. *)
Definition tcp_hdr (fl : byte) : list byte :=
  [x30; x39; x00; x50; x00; x00; x00; x00; x00; x00; x00; x00;
   x50; fl; xff; xff; x00; x00; x00; x00].

(** 10.0.0.7, SYN *)
Definition syn_frame : xdp_md :=
  eth_ipv4 ++ ipv4_hdr x45 x0a x00 x00 x07 ++ tcp_hdr x02.
(** 10.0.0.7, ACK *)
Definition ack_frame : xdp_md :=
  eth_ipv4 ++ ipv4_hdr x45 x0a x00 x00 x07 ++ tcp_hdr x10.
(** 10.0.0.7, SYN+ACK *)
Definition synack_frame : xdp_md :=
  eth_ipv4 ++ ipv4_hdr x45 x0a x00 x00 x07 ++ tcp_hdr x12.
(** The source address of the frames above, as the program loads it. *)
Definition src_10_0_0_7 : Z := 10 + 16777216 * 7.

(** 34 bytes: Ethernet and an IPv4 header whose IHL nibble is 0 and whose
    source address is 10.2.0.7, no TCP header behind it. *)
Definition ihl0_frame : xdp_md :=
  eth_ipv4 ++ ipv4_hdr x40 x0a x02 x00 x07.
Definition src_10_2_0_7 : Z := 10 + 256 * 2 + 16777216 * 7.

(* ------------------------------------------------------------------ *)
(** ** The monitors: sampling and the end-of-run summary

    Counter values are Python integers. CPU percentages, means and the
    success rate are Python floats; they are modelled by the exact
    rationals they round. *)

Inductive py_exn := IndexError | ZeroDivisionError.

Inductive py (A : Type) :=
| Ok (a : A)
| Raise (e : py_exn).
Arguments Ok {A} a.
Arguments Raise {A} e.

Definition py_bind {A B} (c : py A) (k : A -> py B) : py B :=
  match c with
  | Ok a => k a
  | Raise e => Raise e
  end.

Notation "'try' x := c 'in' k" := (py_bind c (fun x => k))
  (at level 10, x name, c at level 100, k at level 200).

(** [l[-1]] *)
Definition py_last {A} (l : list A) : py A :=
  match last l with
  | Some a => Ok a
  | None => Raise IndexError
  end.

(** [a / b] on numbers *)
Definition py_truediv (a b : Q) : py Q :=
  if Qeq_bool b 0 then Raise ZeroDivisionError else Ok (a / b)%Q.

Definition py_sum (l : list Q) : Q := foldl Qplus 0%Q l.

Definition py_len {A} (l : list A) : Q := inject_Z (Z.of_nat (length l)).

(** [(accepted / total * 100) if total > 0 else 0], as written in all
    three monitors. *)
Definition success_rate (accepted total : Z) : py Q :=
  if total >? 0 then
    try q := py_truediv (inject_Z accepted) (inject_Z total) in
    Ok (q * 100)%Q
  else Ok 0%Q.

Record report := {
  syn_total : Z;
  syn_blocked : Z;
  syn_accepted : Z;
  success_rate_pct : Q;
  avg_cpu_pct : Q;
  avg_pps : Q
}.

(** The time series a monitor appends to on every tick. *)
Record series := {
  syn_totals : list Z;     (* [syn_counts] / [syn_accepts] in the others *)
  syn_drops : list Z;      (* [blocked_counts] in the blocklist monitor *)
  cpu_usages : list Q;
  pps_rates : list Z
}.

Definition no_samples : series :=
  {| syn_totals := []; syn_drops := []; cpu_usages := []; pps_rates := [] |}.

(** The [except KeyboardInterrupt] block of XDP_only.py; the one of
    xdp_firewall_shim_con_metriche_v2.py is the same text over
    [syn_counts] and [blocked_counts]. *)
Definition xdp_summary (d : series) : py report :=
  try t := py_last (syn_totals d) in
  try dr := py_last (syn_drops d) in
  let accepted := t - dr in
  try t1 := py_last (syn_totals d) in
  try rate := success_rate accepted t1 in
  try v0 := py_last (syn_totals d) in
  try v1 := py_last (syn_drops d) in
  try cpu := py_truediv (py_sum (cpu_usages d)) (py_len (cpu_usages d)) in
  try pps := py_truediv (py_sum (inject_Z <$> pps_rates d))
                        (py_len (pps_rates d)) in
  Ok {| syn_total := v0; syn_blocked := v1; syn_accepted := accepted;
        success_rate_pct := rate; avg_cpu_pct := cpu; avg_pps := pps |}.

(** The [except KeyboardInterrupt] block of [monitor_iptables]; here
    [syn_totals] holds [syn_accepts]. *)
Definition iptables_summary (d : series) : py report :=
  let syn_accepts := syn_totals d in
  try total_syn :=
    (if negb (bool_decide (syn_accepts = [])) &&
        negb (bool_decide (syn_drops d = []))
     then try a := py_last syn_accepts in
          try dr := py_last (syn_drops d) in
          Ok (a + dr)
     else Ok 0) in
  try rate :=
    (if total_syn >? 0 then
       try a := py_last syn_accepts in
       try q := py_truediv (inject_Z a) (inject_Z total_syn) in
       Ok (q * 100)%Q
     else Ok 0%Q) in
  try v1 := py_last (syn_drops d) in
  try v2 := py_last syn_accepts in
  try cpu :=
    (if negb (bool_decide (cpu_usages d = []))
     then py_truediv (py_sum (cpu_usages d)) (py_len (cpu_usages d))
     else Ok 0%Q) in
  try pps :=
    (if negb (bool_decide (pps_rates d = []))
     then py_truediv (py_sum (inject_Z <$> pps_rates d))
                     (py_len (pps_rates d))
     else Ok 0%Q) in
  Ok {| syn_total := total_syn; syn_blocked := v1; syn_accepted := v2;
        success_rate_pct := rate; avg_cpu_pct := cpu; avg_pps := pps |}.

(** Counter reads of one tick of the XDP_only.py loop:
    [b["stats_map"][0].value] and [b["stats_map"][1].value]. *)
Definition read_counters_simple (s : bpf_state) : Z * Z :=
  (nth 0 (stats_map s) 0, nth 1 (stats_map s) 0).

(** Counter reads of one tick of the blocklist monitor:
    [b["stats_map"][0].value] and [len(b["ip_blocked_map"])]. *)
Definition read_counters_blocklist (s : bpf_state) : Z * Z :=
  (nth 0 (stats_map s) 0, Z.of_nat (size (ip_blocked_map s))).

(** One tick of a sampling loop: append the reads, the CPU sample and the
    delta of the total since the previous tick. *)
Definition tick (reads : Z * Z) (cpu_usage : Q) (prev_total : Z)
    (d : series) : series * Z :=
  let '(total_syn, dropped_syn) := reads in
  let pps := total_syn - prev_total in
  ({| syn_totals := syn_totals d ++ [total_syn];
      syn_drops := syn_drops d ++ [dropped_syn];
      cpu_usages := cpu_usages d ++ [cpu_usage];
      pps_rates := pps_rates d ++ [pps] |}, total_syn).

(** The counter reads of the monitor of each deployment. *)
Definition read_counters (v : variant) : bpf_state -> Z * Z :=
  match v with
  | Transient => read_counters_simple
  | Persistent => read_counters_blocklist
  end.

(* ------------------------------------------------------------------ *)
(** ** iptables_only.py: the rule table *)

Module Iptables.
Local Open Scope string_scope.

(** The argument vectors [setup_iptables] hands to [subprocess.run], in
    order; [check=True] stops at the first command that fails. *)
Definition setup_iptables : list (list string) :=
  [ ["sudo"; "iptables"; "-F"];
    ["sudo"; "iptables"; "-X"];
    ["sudo"; "iptables"; "-A"; "INPUT"; "-p"; "tcp"; "--syn";
     "-m"; "limit"; "--limit"; "10/second"; "--limit-burst"; "10";
     "-j"; "ACCEPT"];
    ["sudo"; "iptables"; "-A"; "INPUT"; "-p"; "tcp"; "--syn";
     "-j"; "DROP"];
    ["sudo"; "iptables"; "-A"; "INPUT"; "-j"; "ACCEPT"] ].

Inductive target := ACCEPT | DROP.

Record rule := {
  r_proto : option string;             (* [-p] *)
  r_syn : bool;                        (* [--syn] *)
  r_limit : option (string * string);  (* [--limit], [--limit-burst] *)
  r_target : option target             (* [-j] *)
}.

Definition any_rule : rule :=
  {| r_proto := None; r_syn := false; r_limit := None; r_target := None |}.

(** The filter table: the rules of each chain, in order. *)
Record table := {
  chains : list (string * list rule)
}.

Definition builtin (c : string) : bool :=
  String.eqb c "INPUT" || String.eqb c "FORWARD" || String.eqb c "OUTPUT".

(** The rule-specification options the script uses. *)
Fixpoint parse_rule (args : list string) (r : rule) : option rule :=
  match args with
  | [] => Some r
  | "-p" :: p :: rest =>
      parse_rule rest {| r_proto := Some p; r_syn := r_syn r;
                         r_limit := r_limit r; r_target := r_target r |}
  | "--syn" :: rest =>
      parse_rule rest {| r_proto := r_proto r; r_syn := true;
                         r_limit := r_limit r; r_target := r_target r |}
  | "-m" :: "limit" :: rest => parse_rule rest r
  | "--limit" :: v :: rest =>
      parse_rule rest
        {| r_proto := r_proto r; r_syn := r_syn r;
           r_limit := Some (v, match r_limit r with
                               | Some (_, b) => b
                               | None => "5"
                               end);
           r_target := r_target r |}
  | "--limit-burst" :: v :: rest =>
      parse_rule rest
        {| r_proto := r_proto r; r_syn := r_syn r;
           r_limit := Some (match r_limit r with
                            | Some (l, _) => l
                            | None => "3/hour"
                            end, v);
           r_target := r_target r |}
  | "-j" :: "ACCEPT" :: rest =>
      parse_rule rest {| r_proto := r_proto r; r_syn := r_syn r;
                         r_limit := r_limit r; r_target := Some ACCEPT |}
  | "-j" :: "DROP" :: rest =>
      parse_rule rest {| r_proto := r_proto r; r_syn := r_syn r;
                         r_limit := r_limit r; r_target := Some DROP |}
  | _ => None
  end.

Fixpoint append_rule (c : string) (r : rule)
    (cs : list (string * list rule)) : option (list (string * list rule)) :=
  match cs with
  | [] => None                          (* no chain by that name *)
  | (c', rs) :: cs' =>
      if String.eqb c c' then Some ((c', (rs ++ [r])%list) :: cs')
      else match append_rule c r cs' with
           | Some cs'' => Some ((c', rs) :: cs'')
           | None => None
           end
  end.

Definition flush_chain (cr : string * list rule) : string * list rule :=
  (cr.1, []).

Definition removable (cr : string * list rule) : bool :=
  builtin cr.1 || bool_decide (length cr.2 = 0%nat).

(** One [iptables] command on the filter table; [None] is a non-zero exit
    status. [-F] empties every chain, [-X] deletes the user-defined
    chains (it fails if one of them still holds rules), [-A] appends. *)
Definition iptables (argv : list string) (t : table) : option table :=
  match argv with
  | ["sudo"; "iptables"; "-F"] =>
      Some {| chains := flush_chain <$> chains t |}
  | ["sudo"; "iptables"; "-X"] =>
      if forallb removable (chains t)
      then Some {| chains := filter (fun cr => builtin cr.1 = true)
                                    (chains t) |}
      else None
  | "sudo" :: "iptables" :: "-A" :: c :: spec =>
      match parse_rule spec any_rule with
      | Some r =>
          match append_rule c r (chains t) with
          | Some cs => Some {| chains := cs |}
          | None => None
          end
      | None => None
      end
  | _ => None
  end.

(** [subprocess.run(..., check=True)] for each command in turn. *)
Fixpoint run_all (cmds : list (list string)) (t : table) : option table :=
  match cmds with
  | [] => Some t
  | c :: cmds' =>
      match iptables c t with
      | Some t' => run_all cmds' t'
      | None => None
      end
  end.

Fixpoint chain_rules (c : string) (cs : list (string * list rule))
    : option (list rule) :=
  match cs with
  | [] => None
  | (c', rs) :: cs' => if String.eqb c c' then Some rs else chain_rules c cs'
  end.

(** What a rule looks at in a packet. *)
Record packet := {
  p_tcp : bool;
  p_syn : bool; p_ack : bool; p_rst : bool; p_fin : bool
}.

(** [--syn]: of SYN, RST, ACK and FIN only SYN is set. *)
Definition syn_packet (p : packet) : bool :=
  p_tcp p && p_syn p && negb (p_ack p) && negb (p_rst p) && negb (p_fin p).

(** Whether rule [r] matches; [within_limit] is the answer of the limit
    match's token bucket for this packet. *)
Definition rule_matches (r : rule) (p : packet) (within_limit : bool) : bool :=
  match r_proto r with
  | Some pr => String.eqb pr "tcp" && p_tcp p
  | None => true
  end
  && (if r_syn r then syn_packet p else true)
  && match r_limit r with
     | Some _ => within_limit
     | None => true
     end.

(** Traversal of a chain: the first matching rule with a target decides;
    the result carries the position of that rule. Falling off the end
    gives the chain policy. *)
Fixpoint traverse (rs : list rule) (i : nat) (p : packet)
    (within_limit : bool) (policy : target) : option nat * target :=
  match rs with
  | [] => (None, policy)
  | r :: rs' =>
      if rule_matches r p within_limit then
        match r_target r with
        | Some tg => (Some i, tg)
        | None => traverse rs' (S i) p within_limit policy
        end
      else traverse rs' (S i) p within_limit policy
  end.

(** The three rules the script is written to install. *)
Definition rule_limit_accept : rule :=
  {| r_proto := Some "tcp"; r_syn := true;
     r_limit := Some ("10/second", "10"); r_target := Some ACCEPT |}.
Definition rule_syn_drop : rule :=
  {| r_proto := Some "tcp"; r_syn := true;
     r_limit := None; r_target := Some DROP |}.
Definition rule_accept_all : rule :=
  {| r_proto := None; r_syn := false;
     r_limit := None; r_target := Some ACCEPT |}.

(** A table as a running kernel has it: INPUT is there. *)
Definition has_input (t : table) : Prop :=
  is_Some (chain_rules "INPUT" (chains t)).

(** A table with the three built-in chains, some rules already in INPUT
    and a user chain. *)
Definition sample_table : table :=
  {| chains := [("INPUT", [rule_syn_drop]); ("FORWARD", []);
                ("OUTPUT", []); ("LOGGING", [rule_accept_all])] |}.

End Iptables.

(** A SYN of source address [a.b.0.10]. *)
Definition syn_from (a b : byte) : xdp_md :=
  eth_ipv4 ++ ipv4_hdr x45 a b x00 x0a ++ tcp_hdr x02.

Definition byte_of (z : Z) : byte :=
  default x00 (Byte.of_N (Z.to_N (z mod 256))).

(** The [k]-th of 65536 distinct sources, and its address as loaded. *)
Definition nth_source_frame (k : Z) : xdp_md :=
  syn_from (byte_of k) (byte_of (k / 256)).
Definition nth_source (k : Z) : Z := k + 167772160.

(** First SYNs of the sources [j], [j+1], ..., [j+n-1]. *)
Fixpoint fill (j : Z) (n : nat) : list arrival :=
  match n with
  | O => []
  | S n' => (0, nth_source_frame j) :: fill (j + 1) n'
  end.

(** The table holds exactly the first [j] sources. *)
Definition filled (s : bpf_state) (j : Z) : Prop :=
  blocked_known s
  /\ Z.of_nat (size (rate_limit_map s)) = j
  /\ forall k, is_Some (rate_limit_map s !! k) ->
               nth_source 0 <= k < nth_source j.

(** Number of arrivals whose frame satisfies [f], and number of Drop
    verdicts. *)
Fixpoint count_where (f : xdp_md -> bool) (tr : list arrival) : Z :=
  match tr with
  | [] => 0
  | (_, ctx) :: tr' => (if f ctx then 1 else 0) + count_where f tr'
  end.

Fixpoint count_drops (vs : list xdp_action) : Z :=
  match vs with
  | [] => 0
  | v :: vs' => (if decide (v = XDP_DROP) then 1 else 0) + count_drops vs'
  end.

(** Ethernet, a 20-byte IPv4 header announcing TCP, and the first two
    bytes of a TCP header: 36 bytes. *)
Definition truncated_frame : xdp_md :=
  eth_ipv4 ++ ipv4_hdr x45 x0a x00 x00 x07 ++ [x30; x39].

(** A state of the blocklist variant in which 10.0.0.7 is blocked. *)
Definition blocked_state : bpf_state :=
  with_maps {[ src_10_0_0_7 := {| last_ts := 0; count := 11 |} ]}
    {[ src_10_0_0_7 := 1 ]} [11].

(* ------------------------------------------------------------------ *)
(** ** The monitoring loops as a whole *)

(** The [while True] loop of an XDP monitor next to the running program:
    each element of [segs] is the traffic the program processes during
    one [time.sleep(1)] and the CPU sample taken after it; the loop ends,
    by Ctrl-C, when [segs] is used up. The result is the series, the last
    [prev_total] and the program state. *)
Fixpoint monitor_loop (v : variant) (segs : list (list arrival * Q))
    (s : bpf_state) (prev : Z) (d : series)
    : option (series * Z * bpf_state) :=
  match segs with
  | [] => Some (d, prev, s)
  | (tr, cpu_usage) :: segs' =>
      match run (program v) s tr with
      | Fault => None
      | Done _ s1 _ =>
          let '(d1, prev1) := tick (read_counters v s1) cpu_usage prev d in
          monitor_loop v segs' s1 prev1 d1
      end
  end.

(** The whole monitor: load, sample until interrupted, summarise. *)
Definition xdp_monitor (v : variant) (segs : list (list arrival * Q))
    : option (py report) :=
  match monitor_loop v segs (loaded v) 0 no_samples with
  | Some (d, _, _) => Some (xdp_summary d)
  | None => None
  end.

(** One iteration of the loop of [monitor_iptables]: [reads] is what
    [get_iptables_stats] returned, [prev] is [(prev_accept, prev_drop)]. *)
Definition iptables_tick (reads : Z * Z) (cpu_usage : Q) (prev : Z * Z)
    (d : series) : series * (Z * Z) :=
  let '(syn_accept, syn_drop) := reads in
  let delta_accept := syn_accept - prev.1 in
  let delta_drop := syn_drop - prev.2 in
  let pps := delta_accept + delta_drop in
  ({| syn_totals := syn_totals d ++ [syn_accept];
      syn_drops := syn_drops d ++ [syn_drop];
      cpu_usages := cpu_usages d ++ [cpu_usage];
      pps_rates := pps_rates d ++ [pps] |}, (syn_accept, syn_drop)).

Fixpoint iptables_loop (ticks : list ((Z * Z) * Q)) (prev : Z * Z)
    (d : series) : series * (Z * Z) :=
  match ticks with
  | [] => (d, prev)
  | (reads, cpu_usage) :: ticks' =>
      let '(d1, prev1) := iptables_tick reads cpu_usage prev d in
      iptables_loop ticks' prev1 d1
  end.

(** [monitor_iptables]: sample until interrupted, summarise. *)
Definition monitor_iptables (ticks : list ((Z * Z) * Q)) : py report :=
  iptables_summary (iptables_loop ticks (0, 0) no_samples).1.

(** All traffic of a monitored run, in order. *)
Definition all_traffic (segs : list (list arrival * Q)) : list arrival :=
  concat (fst <$> segs).

(** The four lists of a series have [n] samples each. *)
Definition series_len (d : series) (n : nat) : Prop :=
  length (syn_totals d) = n /\ length (syn_drops d) = n
  /\ length (cpu_usages d) = n /\ length (pps_rates d) = n.

(** The counters a monitor has last read and remembered. *)
Definition synced (v : variant) (d : series) (prev : Z) (s : bpf_state)
    : Prop :=
  last (syn_totals d) = Some (read_counters v s).1
  /\ last (syn_drops d) = Some (read_counters v s).2
  /\ prev = (read_counters v s).1.


(* ------------------------------------------------------------------ *)
(** ** iptables_only.py: cleanup and the main block *)

Module IptablesMain.
Import Iptables.
Local Open Scope string_scope.


(** Commands run one after the other with [check=True]: the table when
    the sequence ends, and whether it ended normally ([false]: a command
    failed and [CalledProcessError] was raised at that point). *)
Fixpoint run_checked (cmds : list (list string)) (t : table) : table * bool :=
  match cmds with
  | [] => (t, true)
  | c :: cmds' =>
      match iptables c t with
      | Some t' => run_checked cmds' t'
      | None => (t, false)
      end
  end.


(** What [-F] followed by [-X] leaves of a table. *)
Definition flushed (t : table) : table :=
  {| chains := filter (fun cr => builtin cr.1 = true)
                      (flush_chain <$> chains t) |}.

(** A table with a user chain but no INPUT chain. *)
Definition odd_table : table :=
  {| chains := [("LOGGING", [rule_accept_all])] |}.

End IptablesMain.

(* ------------------------------------------------------------------ *)
(** ** http_metrics_collector.py

    Clock readings and durations are Python floats, modelled by exact
    rationals. What the network does to a request is an input. *)

Module Collector.

Inductive failure := Timeout | ConnectionError | OtherException.

(** What [requests.get] and the read of [response.content] do, with the
    [time.time()] readings taken on the way: headers at [t_first] and body
    complete at [t_done]; or an exception before any header; or an
    exception while the body is read, after [ttfb] was taken. *)
Inductive http_outcome :=
| Responded (t_first t_done : Q) (status_code : Z) (nbytes : Z)
| FailedEarly (f : failure) (t_fail : Q)
| FailedLate (t_first : Q) (f : failure) (t_fail : Q).

Record request_result := {
  success : bool;
  response_time : Q;
  status_code : Z;
  ttfb : Q;
  bytes_received : Z;
  timestamp : Q
}.

(** The [except] clauses: a timeout reports the configured timeout, any
    other exception the time elapsed. *)
Definition failure_time (timeout start_time : Q) (f : failure) (t_fail : Q)
    : Q :=
  match f with
  | Timeout => (timeout * 1000)%Q
  | ConnectionError | OtherException => ((t_fail - start_time) * 1000)%Q
  end.

(** [make_request]; [start_time] is the first [time.time()], [stamp] the
    final [datetime.now()]. *)
Definition make_request (timeout start_time : Q) (o : http_outcome)
    (stamp : Q) : request_result :=
  match o with
  | Responded t_first t_done status nbytes =>
      {| success := (200 <=? status) && (status <? 400);
         response_time := ((t_done - start_time) * 1000)%Q;
         status_code := status;
         ttfb := ((t_first - start_time) * 1000)%Q;
         bytes_received := nbytes;
         timestamp := stamp |}
  | FailedEarly f t_fail =>
      {| success := false;
         response_time := failure_time timeout start_time f t_fail;
         status_code := 0;
         ttfb := 0;
         bytes_received := 0;
         timestamp := stamp |}
  | FailedLate t_first f t_fail =>
      {| success := false;
         response_time := failure_time timeout start_time f t_fail;
         status_code := 0;
         ttfb := ((t_first - start_time) * 1000)%Q;
         bytes_received := 0;
         timestamp := stamp |}
  end.

(** [self.metrics] *)
Record metrics := {
  timestamps : list Q;
  response_times : list Q;
  status_codes : list Z;
  successful_requests : Z;
  failed_requests : Z;
  timeout_requests : Z;
  ttfb_values : list Q
}.

Definition empty_metrics : metrics :=
  {| timestamps := []; response_times := []; status_codes := [];
     successful_requests := 0; failed_requests := 0; timeout_requests := 0;
     ttfb_values := [] |}.

(** [response_time >= self.timeout * 1000] *)
Definition at_least (a b : Q) : bool :=
  match (a ?= b)%Q with
  | Lt => false
  | _ => true
  end.

(** "Store metrics": the four appends and the three counters. *)
Definition store (timeout : Q) (r : request_result) (m : metrics) : metrics :=
  {| timestamps := timestamps m ++ [timestamp r];
     response_times := response_times m ++ [response_time r];
     status_codes := status_codes m ++ [status_code r];
     successful_requests :=
       if success r then successful_requests m + 1
       else successful_requests m;
     failed_requests :=
       if success r then failed_requests m else failed_requests m + 1;
     timeout_requests :=
       if success r then timeout_requests m
       else if at_least (response_time r) (timeout * 1000)
            then timeout_requests m + 1
            else timeout_requests m;
     ttfb_values := ttfb_values m ++ [ttfb r] |}.

(** What one pass of the [while True] body meets: the elapsed time at the
    duration check, then the request. *)
Record attempt := {
  elapsed_at_check : Q;
  start_time : Q;
  outcome : http_outcome;
  stamp : Q
}.

Inductive stop := DurationOver | CountReached | Interrupted.

(** Truthiness of the two optional limits: [None] and zero are false. *)
Definition truthy_q (o : option Q) : bool :=
  match o with
  | Some q => negb (Qeq_bool q 0)
  | None => false
  end.

Definition truthy_z (o : option Z) : bool :=
  match o with
  | Some n => negb (n =? 0)
  | None => false
  end.

Definition q_gt (a b : Q) : bool :=
  match (a ?= b)%Q with
  | Gt => true
  | _ => false
  end.

(** The loop of [collect_metrics]. Each element of [inputs] is one pass;
    Ctrl-C arrives when they are used up (between two passes). *)
Fixpoint collect_loop (timeout : Q) (duration_seconds : option Q)
    (max_requests : option Z) (inputs : list attempt)
    (request_count : Z) (m : metrics) : metrics * Z * stop :=
  match inputs with
  | [] => (m, request_count, Interrupted)
  | a :: inputs' =>
      if truthy_q duration_seconds
         && q_gt (elapsed_at_check a) (default 0%Q duration_seconds)
      then (m, request_count, DurationOver)
      else if truthy_z max_requests
              && (request_count >=? default 0 max_requests)
      then (m, request_count, CountReached)
      else
        let result := make_request timeout (start_time a) (outcome a)
                        (stamp a) in
        collect_loop timeout duration_seconds max_requests inputs'
          (request_count + 1) (store timeout result m)
  end.

Definition collect_metrics (timeout : Q) (duration_seconds : option Q)
    (max_requests : option Z) (inputs : list attempt)
    : metrics * Z * stop :=
  collect_loop timeout duration_seconds max_requests inputs 0 empty_metrics.








(** Three passes: a 200, a timeout, a 503. *)
Definition sample_inputs : list attempt :=
  [ {| elapsed_at_check := 0; start_time := 0;
       outcome := Responded (1 # 100) (2 # 100) 200 512; stamp := 0 |};
    {| elapsed_at_check := 1; start_time := 1;
       outcome := FailedEarly Timeout 6; stamp := 6 |};
    {| elapsed_at_check := 7; start_time := 7;
       outcome := Responded (701 # 100) (702 # 100) 503 0; stamp := 7 |} ].

End Collector.

(** One tick after a burst of fifty SYNs of 10.0.0.7 at 1 ns spacing. *)
Definition flood_segs : list (list arrival * Q) :=
  [(burst 50 0 syn_frame, 1%Q)].

(* ================================================================== *)
(** * Properties *)

Example header_view_syn :
  header_view syn_frame = TcpSeg src_10_0_0_7 true false.
Proof. reflexivity. Qed.

Example header_view_ack :
  header_view ack_frame = TcpSeg src_10_0_0_7 false true.
Proof. reflexivity. Qed.

Example header_view_ihl0 :
  header_view ihl0_frame = TcpSeg src_10_2_0_7 true false.
Proof. reflexivity. Qed.

(* ------------------------------------------------------------------ *)
(** ** Packet reads inside the frame succeed *)

Lemma byte_val_range (b : byte) : 0 <= byte_val b < 256.
Proof.
  unfold byte_val. pose proof (Byte.to_N_bounded b) as H. lia.
Qed.

Lemma load_u8_in (ctx : xdp_md) (p now : Z) (s : bpf_state) :
  0 <= p < frame_len ctx ->
  load_u8 ctx p now s = Done (byte_at ctx p) s [].
Proof.
  intros [Hlo Hhi]. unfold load_u8, byte_at, frame_len in *.
  destruct (p <? 0) eqn:E; [lia|].
  destruct (ctx !! Z.to_nat p) as [b|] eqn:Hb; [reflexivity|].
  apply lookup_ge_None in Hb. lia.
Qed.

Lemma load_u8_out (ctx : xdp_md) (p now : Z) (s : bpf_state) :
  frame_len ctx <= p -> load_u8 ctx p now s = Fault.
Proof.
  intros Hp. unfold load_u8, frame_len in *.
  destruct (p <? 0) eqn:E; [reflexivity|].
  destruct (ctx !! Z.to_nat p) as [b|] eqn:Hb; [|reflexivity].
  apply lookup_lt_Some in Hb. lia.
Qed.

Lemma load_u16_in (ctx : xdp_md) (p now : Z) (s : bpf_state) :
  0 <= p -> p + 1 < frame_len ctx ->
  load_u16 ctx p now s = Done (word_at ctx p) s [].
Proof.
  intros H0 H1. unfold load_u16, bind.
  rewrite !load_u8_in by lia. reflexivity.
Qed.

Lemma load_u32_in (ctx : xdp_md) (p now : Z) (s : bpf_state) :
  0 <= p -> p + 3 < frame_len ctx ->
  load_u32 ctx p now s = Done (dword_at ctx p) s [].
Proof.
  intros H0 H1. unfold load_u32, bind.
  rewrite !load_u8_in by lia. reflexivity.
Qed.

Lemma ip_ihl_range (ctx : xdp_md) : 0 <= ip_ihl ctx <= 15.
Proof.
  unfold ip_ihl.
  assert (H : 0 <= byte_at ctx 14).
  { unfold byte_at. destruct (ctx !! _); [apply byte_val_range | lia]. }
  split.
  - apply Z.land_nonneg. lia.
  - change (Z.land (byte_at ctx 14) 15)
      with (Z.land (byte_at ctx 14) (Z.ones 4)).
    rewrite Z.land_ones by lia. change (2 ^ 4) with 16.
    pose proof (Z.mod_pos_bound (byte_at ctx 14) 16). lia.
Qed.

Lemma bind_pure {A B} (c : M A) (k : A -> M B) (a : A) (now : Z)
    (s : bpf_state) :
  c now s = Done a s [] -> bind c k now s = k a now s.
Proof.
  intros H. unfold bind. rewrite H. destruct (k a now s); reflexivity.
Qed.

Lemma bind_ext {A B} (c : M A) (k k' : A -> M B) (now : Z) (s : bpf_state) :
  (forall a s1, k a now s1 = k' a now s1) ->
  bind c k now s = bind c k' now s.
Proof.
  intros H. unfold bind. destruct (c now s) as [|a s1 l1]; [reflexivity|].
  rewrite H. reflexivity.
Qed.

Lemma load_ihl_in (ctx : xdp_md) (now : Z) (s : bpf_state) :
  14 < frame_len ctx ->
  load_ihl ctx 14 now s = Done (ip_ihl ctx) s [].
Proof.
  intros H. unfold load_ihl, off_ihl_version.
  rewrite (bind_pure _ _ (byte_at ctx 14)) by (apply load_u8_in; lia).
  reflexivity.
Qed.

Lemma load_tcp_flag_in (ctx : xdp_md) (bit now : Z) (s : bpf_state) :
  tcp_offset ctx + 20 <= frame_len ctx ->
  load_tcp_flag ctx (tcp_offset ctx) bit now s
  = Done (Z.testbit (word_at ctx (tcp_offset ctx + 12)) bit) s [].
Proof.
  intros H. pose proof (ip_ihl_range ctx) as Hihl.
  assert (Ht : tcp_offset ctx = 14 + ip_ihl ctx * 4) by reflexivity.
  unfold load_tcp_flag, off_tcp_flags.
  rewrite (bind_pure _ _ (word_at ctx (tcp_offset ctx + 12)))
    by (apply load_u16_in; lia).
  reflexivity.
Qed.

Lemma header_view_spec (ctx : xdp_md) : view_spec ctx (header_view ctx).
Proof.
  unfold header_view.
  destruct (frame_len ctx <? 14) eqn:E1; [constructor; lia|].
  destruct (ethertype ctx =? ETH_P_IP) eqn:E2; cbn [negb];
    [|apply VNotIp; lia].
  destruct (frame_len ctx <? 34) eqn:E3; [apply VShortIp; lia|].
  destruct (ip_protocol ctx =? NEXTHDR_TCP) eqn:E4; cbn [negb];
    [|apply VNotTcp; lia].
  destruct (frame_len ctx <? tcp_offset ctx + 20) eqn:E5;
    [apply VShortTcp; lia | apply VTcp; lia].
Qed.

Ltac prefix_step :=
  match goal with
  | |- context [bind (load_u16 ?c ?p) _ _ _] =>
      rewrite (bind_pure (load_u16 c p) _ (word_at c p))
        by (apply load_u16_in; lia)
  | |- context [bind (load_u8 ?c ?p) _ _ _] =>
      rewrite (bind_pure (load_u8 c p) _ (byte_at c p))
        by (apply load_u8_in; lia)
  | |- context [bind (load_u32 ?c ?p) _ _ _] =>
      rewrite (bind_pure (load_u32 c p) _ (dword_at c p))
        by (apply load_u32_in; lia)
  | |- context [bind (load_ihl ?c _) _ _ _] =>
      rewrite (bind_pure (load_ihl c 14) _ (ip_ihl c))
        by (apply load_ihl_in; lia);
      cbv beta; change (14 + ip_ihl c * 4) with (tcp_offset c)
  | |- context [bind (load_tcp_flag ?c _ ?b) _ _ _] =>
      rewrite (bind_pure (load_tcp_flag c (tcp_offset c) b) _
                 (Z.testbit (word_at c (tcp_offset c + 12)) b))
        by (apply load_tcp_flag_in; lia)
  end.

(** Both programs are their engine applied to the header view: the
    bounds checks guard every read. *)
Lemma xdp_simple_firewall_view (ctx : xdp_md) (now : Z) (s : bpf_state) :
  xdp_simple_firewall ctx now s = simple_engine (header_view ctx) now s.
Proof.
  pose proof (ip_ihl_range ctx) as Hihl.
  unfold xdp_simple_firewall, ctx_data, ctx_data_end,
    sizeof_ethhdr, sizeof_iphdr, sizeof_tcphdr, off_h_proto, off_protocol,
    off_saddr.
  fold (frame_len ctx).
  change (0 + 14) with 14. change (0 + 12) with 12.
  change (14 + 20) with 34. change (14 + 9) with 23.
  change (14 + 12) with 26.
  destruct (header_view_spec ctx) as [H1|H1 H2|H1 H2|H1 H2 H3|H1 H2 H3|H1 H1' H2 H3].
  - destruct (14 >? frame_len ctx) eqn:E; [reflexivity | lia].
  - destruct (14 >? frame_len ctx) eqn:E; [lia|].
    prefix_step. fold (ethertype ctx).
    destruct (ethertype ctx =? ETH_P_IP) eqn:E2; [lia | reflexivity].
  - destruct (14 >? frame_len ctx) eqn:E; [lia|].
    prefix_step. fold (ethertype ctx). rewrite H2. cbn [Z.eqb negb].
    rewrite Z.eqb_refl. cbn [negb].
    destruct (34 >? frame_len ctx) eqn:E2; [reflexivity | lia].
  - destruct (14 >? frame_len ctx) eqn:E; [lia|].
    prefix_step. fold (ethertype ctx). rewrite H2, Z.eqb_refl. cbn [negb].
    destruct (34 >? frame_len ctx) eqn:E2; [lia|].
    prefix_step. fold (ip_protocol ctx).
    destruct (ip_protocol ctx =? NEXTHDR_TCP) eqn:E3; [lia | reflexivity].
  - destruct (14 >? frame_len ctx) eqn:E; [lia|].
    prefix_step. fold (ethertype ctx). rewrite H2, Z.eqb_refl. cbn [negb].
    destruct (34 >? frame_len ctx) eqn:E2; [lia|].
    prefix_step. fold (ip_protocol ctx). rewrite H3, Z.eqb_refl. cbn [negb].
    prefix_step.
    destruct (tcp_offset ctx + 20 >? frame_len ctx) eqn:E3;
      [reflexivity | lia].
  - destruct (14 >? frame_len ctx) eqn:E; [lia|].
    prefix_step. fold (ethertype ctx). rewrite H2, Z.eqb_refl. cbn [negb].
    destruct (34 >? frame_len ctx) eqn:E2; [lia|].
    prefix_step. fold (ip_protocol ctx). rewrite H3, Z.eqb_refl. cbn [negb].
    prefix_step.
    destruct (tcp_offset ctx + 20 >? frame_len ctx) eqn:E3; [lia|].
    do 2 prefix_step. fold (tcp_syn ctx). fold (tcp_ack ctx).
    destruct (tcp_syn ctx), (tcp_ack ctx); cbn [andb negb simple_engine];
      try reflexivity.
    apply bind_ext. intros _ s1.
    prefix_step. reflexivity.
Qed.

Lemma xdp_firewall_view (ctx : xdp_md) (now : Z) (s : bpf_state) :
  xdp_firewall ctx now s = blocklist_engine (header_view ctx) now s.
Proof.
  pose proof (ip_ihl_range ctx) as Hihl.
  unfold xdp_firewall, ctx_data, ctx_data_end,
    sizeof_ethhdr, sizeof_iphdr, sizeof_tcphdr, off_h_proto, off_protocol,
    off_saddr.
  fold (frame_len ctx).
  change (0 + 14) with 14. change (0 + 12) with 12.
  change (14 + 20) with 34. change (14 + 9) with 23.
  change (14 + 12) with 26.
  destruct (header_view_spec ctx) as [H1|H1 H2|H1 H2|H1 H2 H3|H1 H2 H3|H1 H1' H2 H3].
  - destruct (14 >? frame_len ctx) eqn:E; [reflexivity | lia].
  - destruct (14 >? frame_len ctx) eqn:E; [lia|].
    prefix_step. fold (ethertype ctx).
    destruct (ethertype ctx =? ETH_P_IP) eqn:E2; [lia | reflexivity].
  - destruct (14 >? frame_len ctx) eqn:E; [lia|].
    prefix_step. fold (ethertype ctx). rewrite H2, Z.eqb_refl. cbn [negb].
    destruct (34 >? frame_len ctx) eqn:E2; [reflexivity | lia].
  - destruct (14 >? frame_len ctx) eqn:E; [lia|].
    prefix_step. fold (ethertype ctx). rewrite H2, Z.eqb_refl. cbn [negb].
    destruct (34 >? frame_len ctx) eqn:E2; [lia|].
    prefix_step. fold (ip_protocol ctx).
    destruct (ip_protocol ctx =? NEXTHDR_TCP) eqn:E3; [lia | reflexivity].
  - destruct (14 >? frame_len ctx) eqn:E; [lia|].
    prefix_step. fold (ethertype ctx). rewrite H2, Z.eqb_refl. cbn [negb].
    destruct (34 >? frame_len ctx) eqn:E2; [lia|].
    prefix_step. fold (ip_protocol ctx). rewrite H3, Z.eqb_refl. cbn [negb].
    prefix_step.
    destruct (tcp_offset ctx + 20 >? frame_len ctx) eqn:E3;
      [reflexivity | lia].
  - destruct (14 >? frame_len ctx) eqn:E; [lia|].
    prefix_step. fold (ethertype ctx). rewrite H2, Z.eqb_refl. cbn [negb].
    destruct (34 >? frame_len ctx) eqn:E2; [lia|].
    prefix_step. fold (ip_protocol ctx). rewrite H3, Z.eqb_refl. cbn [negb].
    prefix_step.
    destruct (tcp_offset ctx + 20 >? frame_len ctx) eqn:E3; [lia|].
    do 3 prefix_step. reflexivity.
Qed.

(* ------------------------------------------------------------------ *)
(** ** The engines in functional form *)

Lemma with_maps_eta (s : bpf_state) :
  with_maps (rate_limit_map s) (ip_blocked_map s) (stats_map s) = s.
Proof. destruct s; reflexivity. Qed.

Lemma hash_update_present {V} (m : gmap Z V) (k : Z) (v : V) :
  is_Some (m !! k) -> hash_update m k v = <[k := v]> m.
Proof. intros [x Hx]. unfold hash_update. rewrite Hx. reflexivity. Qed.

Lemma hash_update_other {V} (m : gmap Z V) (k k' : Z) (v : V) :
  k <> k' -> hash_update m k v !! k' = m !! k'.
Proof.
  intros Hne. unfold hash_update.
  destruct (m !! k); [by rewrite lookup_insert_ne|].
  destruct (_ <? _); [by rewrite lookup_insert_ne | reflexivity].
Qed.

Lemma hash_update_full {V} (m : gmap Z V) (k : Z) (v : V) :
  m !! k = None -> HASH_MAX_ENTRIES <= Z.of_nat (size m) ->
  hash_update m k v = m.
Proof.
  intros Hk Hfull. unfold hash_update. rewrite Hk.
  destruct (_ <? _) eqn:E; [lia | reflexivity].
Qed.

Lemma hash_update_room {V} (m : gmap Z V) (k : Z) (v : V) :
  m !! k = None -> Z.of_nat (size m) < HASH_MAX_ENTRIES ->
  hash_update m k v = <[k := v]> m.
Proof.
  intros Hk Hroom. unfold hash_update. rewrite Hk.
  destruct (_ <? _) eqn:E; [reflexivity | lia].
Qed.

Lemma check_rate_limit_eq (src now : Z) (s : bpf_state) :
  check_rate_limit src now s
  = Done (rl_result (rate_limit_map s !! src) now).1
      (with_maps
         (hash_update (rate_limit_map s) src
            (rl_result (rate_limit_map s !! src) now).2)
         (ip_blocked_map s) (stats_map s))
      (rl_log (rate_limit_map s !! src) src).
Proof.
  unfold check_rate_limit, bind, bpf_ktime_get_ns, rate_lookup, rl_result,
    rl_log, expired.
  destruct (rate_limit_map s !! src) as [rv|] eqn:Hrv; cbn -[wrap64 Z.gtb].
  - destruct (wrap64 (now - last_ts rv) >? TIME_WINDOW_NS);
      cbn -[wrap64 Z.gtb].
    + unfold with_maps. do 2 f_equal.
      rewrite hash_update_present by (rewrite lookup_insert_eq; eauto).
      rewrite insert_insert_eq.
      rewrite hash_update_present by eauto. reflexivity.
    + destruct (wrap64 (count rv + 1) >? THRESHOLD); cbn -[wrap64 Z.gtb];
        unfold with_maps; do 2 f_equal;
        rewrite hash_update_present by (rewrite lookup_insert_eq; eauto);
        rewrite insert_insert_eq;
        rewrite hash_update_present by eauto; reflexivity.
  - reflexivity.
Qed.

Lemma guarded_add_eq (i : nat) (now : Z) (s : bpf_state) :
  (val <- stats_lookup (Z.of_nat i) ;;
   match val with
   | Some _ => sync_fetch_and_add (Z.of_nat i) 1
   | None => ret tt
   end) now s
  = Done tt
      (with_maps (rate_limit_map s) (ip_blocked_map s) (bump i (stats_map s)))
      (bump_log i (stats_map s)).
Proof.
  unfold bind, stats_lookup, sync_fetch_and_add, bump, bump_log, ret.
  destruct (Z.of_nat i <? 0) eqn:E; [apply Z.ltb_lt in E; lia|].
  rewrite Nat2Z.id.
  destruct (stats_map s !! i) as [v|] eqn:Hv.
  - rewrite Hv. reflexivity.
  - unfold with_maps. destruct s; reflexivity.
Qed.

Lemma guarded_add_then {B} (i : nat) (k : M B) (now : Z) (s : bpf_state) :
  (val <- stats_lookup (Z.of_nat i) ;;
   match val with
   | Some _ => sync_fetch_and_add (Z.of_nat i) 1
   | None => ret tt
   end ;;; k) now s
  = match
      k now (with_maps (rate_limit_map s) (ip_blocked_map s)
               (bump i (stats_map s)))
    with
    | Fault => Fault
    | Done b s2 l2 => Done b s2 (bump_log i (stats_map s) ++ l2)
    end.
Proof.
  unfold bind, stats_lookup, sync_fetch_and_add, bump, bump_log, ret.
  destruct (Z.of_nat i <? 0) eqn:E; [apply Z.ltb_lt in E; lia|].
  rewrite Nat2Z.id.
  destruct (stats_map s !! i) as [v|] eqn:Hv.
  - cbn [rate_limit_map ip_blocked_map stats_map]. rewrite Hv.
    unfold with_maps. destruct (k now _); reflexivity.
  - rewrite with_maps_eta. destruct (k now s); reflexivity.
Qed.

Lemma simple_engine_syn (src now : Z) (s : bpf_state) :
  let found := rate_limit_map s !! src in
  let r := rl_result found now in
  let st1 := bump 0 (stats_map s) in
  simple_engine (TcpSeg src true false) now s
  = Done (rl_verdict found now)
      (with_maps (hash_update (rate_limit_map s) src r.2) (ip_blocked_map s)
         (if r.1 =? 0 then st1 else bump 1 st1))
      (bump_log 0 (stats_map s) ++ rl_log found src
       ++ (if r.1 =? 0 then [] else bump_log 1 st1)).
Proof.
  intros found r st1. unfold simple_engine.
  unfold bind at 1. rewrite (guarded_add_eq 0).
  unfold bind at 1. rewrite check_rate_limit_eq.
  cbn [rate_limit_map ip_blocked_map stats_map with_maps].
  fold found. fold r. fold st1. unfold rl_verdict. fold r.
  destruct (r.1 =? 0) eqn:E; cbn [negb].
  - reflexivity.
  - rewrite (guarded_add_then 1).
    cbn [rate_limit_map ip_blocked_map stats_map with_maps ret].
    rewrite app_nil_r. reflexivity.
Qed.

Lemma simple_engine_other (v : frame_class) (now : Z) (s : bpf_state) :
  (forall src, v <> TcpSeg src true false) ->
  simple_engine v now s = Done XDP_PASS s [].
Proof.
  intros H. destruct v as [| |src [] []]; try reflexivity.
  exfalso. exact (H src eq_refl).
Qed.

Lemma blocklist_engine_eq (src now : Z) (syn ack : bool) (s : bpf_state) :
  let found := rate_limit_map s !! src in
  let r := rl_result found now in
  let st1 := bump 0 (stats_map s) in
  blocklist_engine (TcpSeg src syn ack) now s
  = if syn && negb ack then
      match ip_blocked_map s !! src with
      | Some _ =>
          Done XDP_DROP
            (with_maps (rate_limit_map s) (ip_blocked_map s) st1)
            (bump_log 0 (stats_map s) ++ [EvLookup IP_BLOCKED_MAP src])
      | None =>
          Done (rl_verdict found now)
            (with_maps (hash_update (rate_limit_map s) src r.2)
               (if r.1 =? 0 then ip_blocked_map s
                else hash_update (ip_blocked_map s) src 1)
               st1)
            (bump_log 0 (stats_map s) ++ EvLookup IP_BLOCKED_MAP src
             :: rl_log found src
             ++ (if r.1 =? 0 then [] else [EvUpdate IP_BLOCKED_MAP src]))
      end
    else
      Done XDP_PASS (with_maps (rate_limit_map s) (ip_blocked_map s) st1)
        (bump_log 0 (stats_map s) ++ []).
Proof.
  intros found r st1. unfold blocklist_engine.
  rewrite (guarded_add_then 0). fold st1.
  destruct (syn && negb ack); [|reflexivity].
  unfold bind at 1, blocked_lookup at 1.
  cbn [rate_limit_map ip_blocked_map stats_map with_maps].
  destruct (ip_blocked_map s !! src) as [one|] eqn:Hb; [reflexivity|].
  unfold bind at 1. rewrite check_rate_limit_eq.
  cbn [rate_limit_map ip_blocked_map stats_map with_maps].
  fold found. fold r. unfold rl_verdict. fold r.
  destruct (r.1 =? 0) eqn:E; cbn [negb].
  - reflexivity.
  - unfold bind, blocked_update, ret.
    cbn [rate_limit_map ip_blocked_map stats_map with_maps].
    rewrite app_nil_r. reflexivity.
Qed.

(* ------------------------------------------------------------------ *)
(** ** One invocation, by kind of frame *)

Lemma program_view (v : variant) (ctx : xdp_md) (now : Z) (s : bpf_state) :
  program v ctx now s
  = match v with
    | Transient => simple_engine (header_view ctx) now s
    | Persistent => blocklist_engine (header_view ctx) now s
    end.
Proof.
  destruct v; [apply xdp_simple_firewall_view | apply xdp_firewall_view].
Qed.

(** Neither program faults, whatever the frame. *)
Lemma program_total (v : variant) (ctx : xdp_md) (now : Z) (s : bpf_state) :
  exists a s' l, program v ctx now s = Done a s' l.
Proof.
  rewrite program_view. destruct v.
  - destruct (header_view ctx) as [| |src [] []];
      try (cbn [simple_engine ret]; eauto; fail).
    rewrite simple_engine_syn. eauto.
  - destruct (header_view ctx) as [| |src syn ack];
      try (cbn [blocklist_engine ret]; eauto; fail).
    rewrite blocklist_engine_eq.
    destruct (syn && negb ack); [|eauto].
    destruct (ip_blocked_map s !! src); eauto.
Qed.

Lemma run_total (v : variant) (tr : list arrival) (s : bpf_state) :
  exists vs s' l, run (program v) s tr = Done vs s' l.
Proof.
  revert s. induction tr as [|[now ctx] tr IH]; intros s.
  - cbn. eauto.
  - cbn [run]. destruct (program_total v ctx now s) as (a & s1 & l1 & ->).
    destruct (IH s1) as (vs & s2 & l2 & ->). eauto.
Qed.

Lemma run_cons (P : xdp_md -> M xdp_action) now ctx tr s a s1 l1 vs s2 l2 :
  P ctx now s = Done a s1 l1 ->
  run P s1 tr = Done vs s2 l2 ->
  run P s ((now, ctx) :: tr) = Done (a :: vs) s2 (l1 ++ l2).
Proof. intros H1 H2. cbn [run]. rewrite H1, H2. reflexivity. Qed.

Lemma pure_syn_fromb_view (src : Z) (ctx : xdp_md) :
  pure_syn_fromb src ctx = true <-> header_view ctx = TcpSeg src true false.
Proof.
  unfold pure_syn_fromb.
  destruct (header_view ctx) as [| |a [] []]; split; intros H;
    try discriminate.
  - apply Z.eqb_eq in H. by subst.
  - injection H as ->. apply Z.eqb_refl.
Qed.

(* ------------------------------------------------------------------ *)
(** ** C8 *)

(** C8. A parsed TCP-over-IPv4 segment that is not a pure SYN (SYN clear,
    or SYN and ACK both set) gets verdict Pass, and the invocation does not
    touch the rate-limit map or the blocklist map: in the simple variant it
    does nothing at all, in the blocklist variant its only map accesses are
    those of the global counter. *)
Theorem C8_non_syn_bypasses_rate_limit
    (ctx : xdp_md) (now : Z) (s : bpf_state) (src : Z) (syn ack : bool) :
  header_view ctx = TcpSeg src syn ack ->
  pure_syn syn ack = false ->
  xdp_simple_firewall ctx now s = Done XDP_PASS s []
  /\ exists s' l,
       xdp_firewall ctx now s = Done XDP_PASS s' l
       /\ rate_limit_map s' = rate_limit_map s
       /\ ip_blocked_map s' = ip_blocked_map s
       /\ Forall (fun e => ~ touches_flow_maps e) l.
Proof.
  intros Hv Hp. split.
  - rewrite xdp_simple_firewall_view, Hv.
    destruct syn, ack; try discriminate; reflexivity.
  - rewrite xdp_firewall_view, Hv, blocklist_engine_eq.
    unfold pure_syn in Hp. rewrite Hp.
    eexists _, _. split; [reflexivity|].
    cbn [rate_limit_map ip_blocked_map with_maps].
    split; [reflexivity|]. split; [reflexivity|].
    rewrite app_nil_r. unfold bump_log, touches_flow_maps.
    destruct (stats_map s !! 0%nat); repeat constructor;
      cbn; intros [H|H]; discriminate.
Qed.

Lemma C8_witness :
  header_view synack_frame = TcpSeg src_10_0_0_7 true true
  /\ xdp_simple_firewall synack_frame 5 init_simple
     = Done XDP_PASS init_simple [].
Proof.
  split; [reflexivity|].
  apply (C8_non_syn_bypasses_rate_limit synack_frame 5 init_simple
           src_10_0_0_7 true true); reflexivity.
Defined.

(* ------------------------------------------------------------------ *)
(** ** C5 *)

Lemma wrap64_small (z : Z) : 0 <= z < 2 ^ 64 -> wrap64 z = z.
Proof. intros H. unfold wrap64. apply Z.mod_small. exact H. Qed.

(** C5. Simple variant: a pure SYN of a source that has a flow record,
    arriving more than 2 s after [last_ts] (both values being [u64]
    clock readings), resets the record to [last_ts = now, count = 1] and
    gets verdict Pass, whatever count the record held. *)
Theorem C5_expired_window_resets
    (ctx : xdp_md) (now : Z) (s : bpf_state) (src : Z) (rv : rate_val) :
  is_pure_syn_from src ctx ->
  rate_limit_map s !! src = Some rv ->
  0 <= last_ts rv -> now < 2 ^ 64 ->
  now - last_ts rv > TIME_WINDOW_NS ->
  exists s' l,
    xdp_simple_firewall ctx now s = Done XDP_PASS s' l
    /\ rate_limit_map s' !! src = Some {| last_ts := now; count := 1 |}.
Proof.
  intros Hv Hrv H0 Hnow Hexp.
  rewrite xdp_simple_firewall_view, Hv, simple_engine_syn, Hrv.
  assert (He : expired rv now = true).
  { unfold expired. rewrite wrap64_small; unfold TIME_WINDOW_NS in *; lia. }
  unfold rl_verdict, rl_result. rewrite He. cbn [fst snd Z.eqb].
  eexists _, _. split; [reflexivity|].
  cbn [rate_limit_map with_maps].
  rewrite hash_update_present by eauto. apply lookup_insert_eq.
Qed.

Lemma C5_witness :
  exists s' l,
    xdp_simple_firewall syn_frame 3000000000
      (with_maps {[ src_10_0_0_7 := {| last_ts := 0; count := 50 |} ]} ∅
         [50; 40])
    = Done XDP_PASS s' l
    /\ rate_limit_map s' !! src_10_0_0_7
       = Some {| last_ts := 3000000000; count := 1 |}.
Proof.
  apply (C5_expired_window_resets syn_frame 3000000000 _ src_10_0_0_7
           {| last_ts := 0; count := 50 |}).
  - reflexivity.
  - vm_compute. reflexivity.
  - cbn. lia.
  - lia.
  - cbn. unfold TIME_WINDOW_NS. lia.
Defined.

(* ------------------------------------------------------------------ *)
(** ** One invocation, seen from one source *)

Lemma not_writes_flow_stats (src : Z) (i : nat) (st : list Z) :
  Forall (fun e => ~ writes_flow src e) (bump_log i st).
Proof.
  unfold bump_log, writes_flow.
  destruct (st !! i); repeat constructor; cbn; intros (_ & H & _);
    discriminate.
Qed.

Lemma not_writes_flow_rl (src k : Z) (found : option rate_val) :
  k <> src -> Forall (fun e => ~ writes_flow src e) (rl_log found k).
Proof.
  intros Hne. unfold rl_log, writes_flow.
  destruct found; repeat constructor; cbn; intros (_ & _ & H); congruence.
Qed.

(** An arrival that is not a pure SYN of [src] leaves the flow record and
    the blocklist entry of [src] alone. *)
Lemma step_other (v : variant) (src : Z) (ctx : xdp_md) (now : Z)
    (s : bpf_state) :
  pure_syn_fromb src ctx = false ->
  exists a s' l,
    program v ctx now s = Done a s' l
    /\ rate_limit_map s' !! src = rate_limit_map s !! src
    /\ ip_blocked_map s' !! src = ip_blocked_map s !! src
    /\ Forall (fun e => ~ writes_flow src e) l.
Proof.
  intros Hn. rewrite program_view. unfold pure_syn_fromb in Hn.
  destruct v.
  - destruct (header_view ctx) as [| |k [] []];
      try (cbn [simple_engine ret]; eexists _, _, _;
           repeat split; constructor).
    apply Z.eqb_neq in Hn. rewrite simple_engine_syn.
    eexists _, _, _. split; [reflexivity|].
    cbn [rate_limit_map ip_blocked_map with_maps].
    split; [by apply hash_update_other|]. split; [reflexivity|].
    rewrite !Forall_app. split; [apply not_writes_flow_stats|].
    split; [by apply not_writes_flow_rl|].
    destruct (_ =? 0); [constructor | apply not_writes_flow_stats].
  - destruct (header_view ctx) as [| |k syn ack];
      try (cbn [blocklist_engine ret]; eexists _, _, _;
           repeat split; constructor).
    rewrite blocklist_engine_eq.
    destruct syn, ack; cbn [andb negb];
      try (eexists _, _, _; split; [reflexivity|];
           cbn [rate_limit_map ip_blocked_map with_maps];
           repeat split; rewrite app_nil_r; apply not_writes_flow_stats).
    apply Z.eqb_neq in Hn.
    destruct (ip_blocked_map s !! k) as [one|] eqn:Hb.
    + eexists _, _, _. split; [reflexivity|].
      cbn [rate_limit_map ip_blocked_map with_maps].
      repeat split. rewrite Forall_app.
      split; [apply not_writes_flow_stats|].
      repeat constructor. intros (H & _). discriminate.
    + eexists _, _, _. split; [reflexivity|].
      cbn [rate_limit_map ip_blocked_map with_maps].
      split; [by apply hash_update_other|].
      split.
      { destruct (_ =? 0); [reflexivity | by apply hash_update_other]. }
      rewrite Forall_app. split; [apply not_writes_flow_stats|].
      constructor; [intros (H & _); discriminate|].
      rewrite Forall_app. split; [by apply not_writes_flow_rl|].
      destruct (_ =? 0); repeat constructor.
      intros (_ & H & _). discriminate.
Qed.

(** A pure SYN of a source that is not blocked: the verdict is the rate
    limiter's, and the flow record is the one it leaves. *)
Lemma step_src (v : variant) (src : Z) (ctx : xdp_md) (now : Z)
    (s : bpf_state) :
  pure_syn_fromb src ctx = true ->
  not_blocked v s src ->
  exists s' l,
    program v ctx now s
    = Done (rl_verdict (rate_limit_map s !! src) now) s' l
    /\ rate_limit_map s'
       = hash_update (rate_limit_map s) src
           (rl_result (rate_limit_map s !! src) now).2
    /\ (rl_verdict (rate_limit_map s !! src) now = XDP_PASS ->
        not_blocked v s' src).
Proof.
  intros Hp Hnb. apply pure_syn_fromb_view in Hp.
  rewrite program_view, Hp. destruct v.
  - rewrite simple_engine_syn. eexists _, _. split; [reflexivity|].
    split; [reflexivity | done].
  - rewrite blocklist_engine_eq. cbn [andb negb]. cbn in Hnb. rewrite Hnb.
    eexists _, _. split; [reflexivity|].
    cbn [rate_limit_map ip_blocked_map with_maps not_blocked].
    split; [reflexivity|].
    unfold rl_verdict. destruct (_ =? 0); [done | discriminate].
Qed.

(* ------------------------------------------------------------------ *)
(** ** C1: a burst inside one window *)

Lemma src_verdicts_none (v : variant) (src : Z) (tr : list arrival)
    (s : bpf_state) :
  src_times src tr = [] ->
  exists vs s' l,
    run (program v) s tr = Done vs s' l /\ src_verdicts src tr vs = [].
Proof.
  revert s. induction tr as [|[now ctx] tr IH]; intros s Hts.
  - cbn. eauto.
  - cbn [src_times] in Hts.
    destruct (pure_syn_fromb src ctx) eqn:Hp; [discriminate|].
    destruct (program_total v ctx now s) as (a & s1 & l1 & H1).
    destruct (IH s1 Hts) as (vs & s2 & l2 & H2 & Hvs).
    eexists _, _, _. split; [exact (run_cons _ _ _ _ _ _ _ _ _ _ _ H1 H2)|].
    cbn [src_verdicts]. rewrite Hp. exact Hvs.
Qed.

(** With the window open at count [c], the next pure SYNs of the source
    raise the count one by one; those up to count 10 pass, the one that
    makes it 11 is dropped. *)
Lemma window_run (v : variant) (src t1 : Z) (tr : list arrival) :
  forall (s : bpf_state) (c : Z),
    rate_limit_map s !! src = Some {| last_ts := t1; count := c |} ->
    not_blocked v s src ->
    1 <= c <= THRESHOLD ->
    Forall (in_window t1) (src_times src tr) ->
    c + Z.of_nat (length (src_times src tr)) = THRESHOLD + 1 ->
    exists vs s' l,
      run (program v) s tr = Done vs s' l
      /\ src_verdicts src tr vs
         = replicate (Z.to_nat (THRESHOLD - c)) XDP_PASS ++ [XDP_DROP].
Proof.
  induction tr as [|[now ctx] tr IH]; intros s c Hrv Hnb Hc Hw Hn.
  - cbn in Hn. lia.
  - cbn [src_times src_verdicts] in *.
    destruct (pure_syn_fromb src ctx) eqn:Hp.
    + apply Forall_cons in Hw as [Hnow Hw]. cbn [length] in Hn.
      destruct (step_src v src ctx now s Hp Hnb) as (s1 & l1 & H1 & Hr1 & Hnb1).
      rewrite Hrv in *.
      assert (He : expired {| last_ts := t1; count := c |} now = false).
      { unfold expired, in_window, TIME_WINDOW_NS in *. cbn [last_ts].
        rewrite wrap64_small; lia. }
      assert (Hres : rl_result (Some {| last_ts := t1; count := c |}) now
                     = (if c + 1 >? THRESHOLD then 1 else 0,
                        {| last_ts := t1; count := c + 1 |})).
      { unfold rl_result. rewrite He. cbn [last_ts count].
        unfold THRESHOLD in *. rewrite wrap64_small by lia. reflexivity. }
      assert (Hrv1 : rate_limit_map s1 !! src
                     = Some {| last_ts := t1; count := c + 1 |}).
      { rewrite Hr1, Hres. cbn [snd].
        rewrite hash_update_present by eauto. apply lookup_insert_eq. }
      unfold rl_verdict in H1, Hnb1. rewrite Hres in H1, Hnb1.
      cbn [fst] in H1, Hnb1.
      destruct (c + 1 >? THRESHOLD) eqn:Hgt.
      * (* the eleventh *)
        assert (c = THRESHOLD) by lia. subst c.
        assert (Hts : src_times src tr = []).
        { destruct (src_times src tr); [reflexivity | cbn in Hn; lia]. }
        destruct (src_verdicts_none v src tr s1 Hts)
          as (vs & s2 & l2 & H2 & Hvs).
        eexists _, _, _.
        split; [exact (run_cons _ _ _ _ _ _ _ _ _ _ _ H1 H2)|].
        cbn [src_verdicts]. rewrite ?Hp, Hvs, Z.sub_diag. reflexivity.
      * destruct (IH s1 (c + 1) Hrv1 (Hnb1 eq_refl)) as (vs & s2 & l2 & H2 & Hvs);
          [lia | exact Hw | lia |].
        eexists _, _, _.
        split; [exact (run_cons _ _ _ _ _ _ _ _ _ _ _ H1 H2)|].
        cbn [src_verdicts]. rewrite ?Hp, Hvs.
        replace (Z.to_nat (THRESHOLD - c))
          with (S (Z.to_nat (THRESHOLD - (c + 1)))) by lia.
        reflexivity.
    + destruct (step_other v src ctx now s Hp)
        as (a & s1 & l1 & H1 & Hr1 & Hb1 & _).
      assert (Hnb1 : not_blocked v s1 src).
      { destruct v; [done|]. cbn in *. congruence. }
      rewrite <- Hr1 in Hrv.
      destruct (IH s1 c Hrv Hnb1 Hc Hw Hn) as (vs & s2 & l2 & H2 & Hvs).
      eexists _, _, _.
      split; [exact (run_cons _ _ _ _ _ _ _ _ _ _ _ H1 H2)|].
      cbn [src_verdicts]. rewrite ?Hp. exact Hvs.
Qed.

(** C1. In both variants: when a pure SYN of a source at time [t1] starts
    a window (no record yet and room in the table, or the old window
    over) and the next ten pure SYNs of that source arrive within
    [t1, t1 + 2 s], whatever other traffic is interleaved, the first ten
    get Pass and the eleventh gets Drop. *)
Theorem C1_threshold_burst
    (v : variant) (s : bpf_state) (src t1 : Z) (ctx1 : xdp_md)
    (tr : list arrival) :
  not_blocked v s src ->
  opens_window s src t1 ->
  pure_syn_fromb src ctx1 = true ->
  length (src_times src tr) = 10%nat ->
  Forall (in_window t1) (src_times src tr) ->
  exists vs s' l,
    run (program v) s ((t1, ctx1) :: tr) = Done vs s' l
    /\ src_verdicts src ((t1, ctx1) :: tr) vs
       = replicate 10 XDP_PASS ++ [XDP_DROP].
Proof.
  intros Hnb Hopen Hp Hlen Hw.
  destruct (step_src v src ctx1 t1 s Hp Hnb) as (s1 & l1 & H1 & Hr1 & Hnb1).
  assert (Hres : rl_result (rate_limit_map s !! src) t1
                 = (0, {| last_ts := t1; count := 1 |})).
  { unfold opens_window in Hopen. unfold rl_result.
    destruct (rate_limit_map s !! src); [by rewrite Hopen | reflexivity]. }
  assert (Hrv1 : rate_limit_map s1 !! src
                 = Some {| last_ts := t1; count := 1 |}).
  { rewrite Hr1, Hres. cbn [snd]. unfold opens_window in Hopen.
    destruct (rate_limit_map s !! src) eqn:Hf.
    - rewrite hash_update_present by eauto. apply lookup_insert_eq.
    - rewrite hash_update_room by done. apply lookup_insert_eq. }
  unfold rl_verdict in H1, Hnb1. rewrite Hres in H1, Hnb1.
  cbn [fst Z.eqb] in H1, Hnb1.
  destruct (window_run v src t1 tr s1 1 Hrv1 (Hnb1 eq_refl))
    as (vs & s2 & l2 & H2 & Hvs);
    [unfold THRESHOLD; lia | exact Hw | rewrite Hlen; reflexivity |].
  eexists _, _, _.
  split; [exact (run_cons _ _ _ _ _ _ _ _ _ _ _ H1 H2)|].
  cbn [src_verdicts]. rewrite Hp, Hvs. reflexivity.
Qed.

Lemma C1_witness :
  exists vs s' l,
    run (program Persistent) init_blocklist (burst 11 0 syn_frame)
    = Done vs s' l
    /\ src_verdicts src_10_0_0_7 (burst 11 0 syn_frame) vs
       = replicate 10 XDP_PASS ++ [XDP_DROP].
Proof.
  apply (C1_threshold_burst Persistent init_blocklist src_10_0_0_7 0
           syn_frame (burst 10 1 syn_frame)).
  - reflexivity.
  - vm_compute. reflexivity.
  - reflexivity.
  - reflexivity.
  - repeat constructor; unfold in_window, TIME_WINDOW_NS; lia.
Defined.

(* ------------------------------------------------------------------ *)
(** ** C3: the blocklist *)

Lemma step_non_syn (v : variant) (ctx : xdp_md) (now : Z) (s : bpf_state)
    (src : Z) (syn ack : bool) :
  header_view ctx = TcpSeg src syn ack ->
  pure_syn syn ack = false ->
  exists s' l, program v ctx now s = Done XDP_PASS s' l.
Proof.
  intros Hv Hp. rewrite program_view, Hv. destruct v.
  - destruct syn, ack; try discriminate; cbn; eauto.
  - rewrite blocklist_engine_eq. unfold pure_syn in Hp. rewrite Hp. eauto.
Qed.

(** A pure SYN of a blocked source: dropped at the blocklist lookup, the
    flow record is not even read. *)
Lemma step_blocked (src : Z) (ctx : xdp_md) (now : Z) (s : bpf_state) :
  header_view ctx = TcpSeg src true false ->
  is_Some (ip_blocked_map s !! src) ->
  exists s' l,
    xdp_firewall ctx now s = Done XDP_DROP s' l
    /\ rate_limit_map s' = rate_limit_map s
    /\ ip_blocked_map s' = ip_blocked_map s
    /\ Forall (fun e => event_map e <> RATE_LIMIT_MAP) l.
Proof.
  intros Hv [one Hb].
  rewrite xdp_firewall_view, Hv, blocklist_engine_eq. cbn [andb negb].
  rewrite Hb. eexists _, _. split; [reflexivity|].
  cbn [rate_limit_map ip_blocked_map with_maps]. repeat split.
  rewrite Forall_app. split.
  - unfold bump_log. destruct (stats_map s !! 0%nat); repeat constructor;
      discriminate.
  - repeat constructor. discriminate.
Qed.

Lemma blocked_run (src : Z) (tr : list arrival) :
  forall s : bpf_state,
    is_Some (ip_blocked_map s !! src) ->
    exists vs s' l,
      run xdp_firewall s tr = Done vs s' l
      /\ (forall i now ctx syn ack,
            tr !! i = Some (now, ctx) ->
            header_view ctx = TcpSeg src syn ack ->
            vs !! i = Some (if pure_syn syn ack then XDP_DROP else XDP_PASS))
      /\ rate_limit_map s' !! src = rate_limit_map s !! src
      /\ is_Some (ip_blocked_map s' !! src)
      /\ Forall (fun e => ~ writes_flow src e) l.
Proof.
  induction tr as [|[now ctx] tr IH]; intros s Hb.
  - eexists _, _, _. split; [reflexivity|].
    split; [intros i ????? H; by destruct i|]. repeat split; [done|constructor].
  - assert (Hstep : exists a s1 l1,
              xdp_firewall ctx now s = Done a s1 l1
              /\ (forall syn ack, header_view ctx = TcpSeg src syn ack ->
                    a = if pure_syn syn ack then XDP_DROP else XDP_PASS)
              /\ rate_limit_map s1 !! src = rate_limit_map s !! src
              /\ is_Some (ip_blocked_map s1 !! src)
              /\ Forall (fun e => ~ writes_flow src e) l1).
    { destruct (pure_syn_fromb src ctx) eqn:Hp.
      - apply pure_syn_fromb_view in Hp.
        destruct (step_blocked src ctx now s Hp Hb)
          as (s1 & l1 & H1 & Hr & Hbl & Hl).
        eexists _, _, _. split; [exact H1|].
        split; [intros syn ack Hv; rewrite Hp in Hv; by injection Hv as <- <-|].
        rewrite Hr, Hbl. repeat split; [done|].
        eapply Forall_impl; [exact Hl|]. intros e He (_ & Hm & _). done.
      - destruct (step_other Persistent src ctx now s Hp)
          as (a & s1 & l1 & H1 & Hr & Hbl & Hl).
        eexists _, _, _. split; [exact H1|].
        split.
        + intros syn ack Hv.
          assert (Hps : pure_syn syn ack = false).
          { unfold pure_syn_fromb in Hp. rewrite Hv in Hp.
            destruct syn, ack; try reflexivity.
            rewrite Z.eqb_refl in Hp. discriminate. }
          rewrite Hps.
          destruct (step_non_syn Persistent ctx now s src syn ack Hv Hps)
            as (s2 & l2 & H2).
          cbn [program] in H1, H2. congruence.
        + rewrite Hr, Hbl. done. }
    destruct Hstep as (a & s1 & l1 & H1 & Ha & Hr1 & Hb1 & Hl1).
    destruct (IH s1 Hb1) as (vs & s2 & l2 & H2 & Hvs & Hr2 & Hb2 & Hl2).
    eexists _, _, _.
    split; [exact (run_cons _ _ _ _ _ _ _ _ _ _ _ H1 H2)|].
    split; [|split; [congruence | split; [done | by apply Forall_app]]].
    intros [|i] now' ctx' syn ack Hi Hv.
    + injection Hi as -> ->. cbn. f_equal. by apply Ha.
    + cbn in Hi |- *. by eapply Hvs.
Qed.

(** C3 as stated fails: after eleven SYNs at 1 ns spacing the source is in
    the blocked set, and its next segment, an ACK, still gets Pass. *)
Lemma C3_counterexample :
  (fun s => ip_blocked_map s !! src_10_0_0_7)
    <$> final_state (run xdp_firewall init_blocklist (burst 11 0 syn_frame))
  = Some (Some 1)
  /\ verdicts (run xdp_firewall init_blocklist
                 (burst 11 0 syn_frame ++ [(11, ack_frame)]))
     = Some (replicate 10 XDP_PASS ++ [XDP_DROP; XDP_PASS]).
Proof. split; vm_compute; reflexivity. Qed.

(** C3 (amended). Blocklist variant: once a source is in the blocked set,
    over any later traffic every pure SYN of that source gets Drop while
    its other TCP segments get Pass; the source stays blocked, its flow
    record is never written again and is left as it was. *)
Theorem C3_blocked_source_syn_dropped
    (src : Z) (s : bpf_state) (tr : list arrival) :
  is_Some (ip_blocked_map s !! src) ->
  exists vs s' l,
    run xdp_firewall s tr = Done vs s' l
    /\ (forall i now ctx syn ack,
          tr !! i = Some (now, ctx) ->
          header_view ctx = TcpSeg src syn ack ->
          vs !! i = Some (if pure_syn syn ack then XDP_DROP else XDP_PASS))
    /\ rate_limit_map s' !! src = rate_limit_map s !! src
    /\ is_Some (ip_blocked_map s' !! src)
    /\ Forall (fun e => ~ writes_flow src e) l.
Proof. intros Hb. by apply blocked_run. Qed.

Lemma C3_witness :
  exists vs s' l,
    run xdp_firewall blocked_state [(11, syn_frame); (12, ack_frame)]
    = Done vs s' l
    /\ (forall i now ctx syn ack,
          [(11, syn_frame); (12, ack_frame)] !! i = Some (now, ctx) ->
          header_view ctx = TcpSeg src_10_0_0_7 syn ack ->
          vs !! i = Some (if pure_syn syn ack then XDP_DROP else XDP_PASS))
    /\ rate_limit_map s' !! src_10_0_0_7
       = rate_limit_map blocked_state !! src_10_0_0_7
    /\ is_Some (ip_blocked_map s' !! src_10_0_0_7)
    /\ Forall (fun e => ~ writes_flow src_10_0_0_7 e) l.
Proof.
  apply (C3_blocked_source_syn_dropped src_10_0_0_7 blocked_state
           [(11, syn_frame); (12, ack_frame)]).
  exists 1. vm_compute. reflexivity.
Defined.

(* ------------------------------------------------------------------ *)
(** ** What any invocation can do to the tables *)

Lemma hash_update_keeps {V} (m : gmap Z V) (k j : Z) (v : V) :
  is_Some (m !! j) -> is_Some (hash_update m k v !! j).
Proof.
  intros Hj. destruct (decide (k = j)) as [->|Hne].
  - rewrite hash_update_present by done. rewrite lookup_insert_eq. eauto.
  - by rewrite hash_update_other.
Qed.

Lemma hash_update_lookup_inv {V} (m : gmap Z V) (k j : Z) (v : V) :
  is_Some (hash_update m k v !! j) -> j = k \/ is_Some (m !! j).
Proof.
  intros Hj. destruct (decide (k = j)) as [->|Hne]; [by left|].
  right. by rewrite hash_update_other in Hj.
Qed.

Lemma hash_update_size_ge {V} (m : gmap Z V) (k : Z) (v : V) :
  (size m <= size (hash_update m k v))%nat.
Proof.
  unfold hash_update. destruct (m !! k) as [x|] eqn:Hk.
  - rewrite map_size_insert_Some by eauto. lia.
  - destruct (_ <? _); [|lia]. rewrite map_size_insert_None by done. lia.
Qed.

Lemma hash_update_size_le {V} (m : gmap Z V) (k : Z) (v : V) :
  (size (hash_update m k v) <= S (size m))%nat.
Proof.
  unfold hash_update. destruct (m !! k) as [x|] eqn:Hk.
  - rewrite map_size_insert_Some by eauto. lia.
  - destruct (_ <? _); [|lia]. rewrite map_size_insert_None by done. lia.
Qed.

(** The footprint of one invocation on the two hash maps: the rate-limit
    map is untouched or updated at one key, and the blocklist is untouched
    or updated at a key that has a flow record. Frames that are not TCP
    segments change nothing. *)
Lemma step_shape (v : variant) (ctx : xdp_md) (now : Z) (s : bpf_state) :
  exists a s' l,
    program v ctx now s = Done a s' l
    /\ (rate_limit_map s' = rate_limit_map s
        \/ exists k x, rate_limit_map s' = hash_update (rate_limit_map s) k x)
    /\ (ip_blocked_map s' = ip_blocked_map s
        \/ exists k, is_Some (rate_limit_map s !! k)
             /\ ip_blocked_map s' = hash_update (ip_blocked_map s) k 1).
Proof.
  rewrite program_view. destruct v.
  - destruct (header_view ctx) as [| |k [] []];
      try (cbn [simple_engine ret]; eexists _, _, _;
           split; [reflexivity|]; split; by left).
    rewrite simple_engine_syn. eexists _, _, _. split; [reflexivity|].
    cbn [rate_limit_map ip_blocked_map with_maps]. split; [right; eauto | by left].
  - destruct (header_view ctx) as [| |k syn ack];
      try (cbn [blocklist_engine ret]; eexists _, _, _;
           split; [reflexivity|]; split; by left).
    rewrite blocklist_engine_eq.
    destruct (syn && negb ack).
    + destruct (ip_blocked_map s !! k) eqn:Hb.
      * eexists _, _, _. split; [reflexivity|].
        cbn [rate_limit_map ip_blocked_map with_maps]. split; by left.
      * eexists _, _, _. split; [reflexivity|].
        cbn [rate_limit_map ip_blocked_map with_maps].
        split; [right; eauto|].
        unfold rl_result.
        destruct (rate_limit_map s !! k) as [rv|] eqn:Hrv;
          [|cbn; by left].
        destruct (_ =? 0); [by left|]. right. exists k. eauto.
    + eexists _, _, _. split; [reflexivity|].
      cbn [rate_limit_map ip_blocked_map with_maps]. split; by left.
Qed.

Lemma step_blocked_known (v : variant) ctx now s a s' l :
  program v ctx now s = Done a s' l -> blocked_known s -> blocked_known s'.
Proof.
  intros H Hk.
  destruct (step_shape v ctx now s) as (a' & s1 & l1 & H1 & Hr & Hb).
  rewrite H in H1. injection H1 as <- <- <-.
  intros j Hj.
  assert (Hkeep : forall i, is_Some (rate_limit_map s !! i) ->
                            is_Some (rate_limit_map s' !! i)).
  { intros i Hi. destruct Hr as [->|(k & x & ->)];
      [done | by apply hash_update_keeps]. }
  apply Hkeep. destruct Hb as [Hb|(k & Hsk & Hb)]; rewrite Hb in Hj.
  - by apply Hk.
  - apply hash_update_lookup_inv in Hj as [->|Hj]; [done | by apply Hk].
Qed.

Lemma step_size_ge (v : variant) ctx now s a s' l :
  program v ctx now s = Done a s' l ->
  (size (rate_limit_map s) <= size (rate_limit_map s'))%nat.
Proof.
  intros H.
  destruct (step_shape v ctx now s) as (a' & s1 & l1 & H1 & Hr & _).
  rewrite H in H1. injection H1 as <- <- <-.
  destruct Hr as [->|(k & x & ->)]; [lia | apply hash_update_size_ge].
Qed.

(** An invariant of single invocations holds along a run. *)
Lemma run_invariant (v : variant) (I : bpf_state -> Prop) :
  (forall ctx now s a s' l,
     I s -> program v ctx now s = Done a s' l -> I s') ->
  forall tr s vs s' l,
    I s -> run (program v) s tr = Done vs s' l -> I s'.
Proof.
  intros Hstep. induction tr as [|[now ctx] tr IH]; intros s vs s' l Hs Hrun.
  - cbn in Hrun. by injection Hrun as _ <- _.
  - cbn [run] in Hrun.
    destruct (program v ctx now s) as [|a s1 l1] eqn:H1; [discriminate|].
    destruct (run (program v) s1 tr) as [|vs' s2 l2] eqn:H2; [discriminate|].
    injection Hrun as _ <- _. eapply IH; [|exact H2]. eapply Hstep; eauto.
Qed.

Lemma reachable_blocked_known (v : variant) (s : bpf_state) :
  reachable v s -> blocked_known s.
Proof.
  intros (hist & vs & l & Hrun).
  eapply (run_invariant v blocked_known); [|  |exact Hrun].
  - intros ctx now s0 a s' l0 Hs H. eapply step_blocked_known; eauto.
  - intros k [x Hx]. destruct v; cbn in Hx; by rewrite lookup_empty in Hx.
Qed.

(* ------------------------------------------------------------------ *)
(** ** C10: sources without a flow record *)

Lemma new_source_not_blocked (v : variant) (s : bpf_state) (src : Z) :
  blocked_known s -> rate_limit_map s !! src = None -> not_blocked v s src.
Proof.
  intros Hk Hnone. destruct v; [done|]. cbn.
  destruct (ip_blocked_map s !! src) as [one|] eqn:Hb; [|reflexivity].
  destruct (Hk src) as [x Hx]; [eauto | congruence].
Qed.

(** With the table full, a source without a record never gets one, and
    all its pure SYNs pass. *)
Lemma full_table_run (v : variant) (src : Z) (tr : list arrival) :
  forall s : bpf_state,
    blocked_known s -> rate_limit_map s !! src = None -> table_full s ->
    exists vs s' l,
      run (program v) s tr = Done vs s' l
      /\ rate_limit_map s' !! src = None
      /\ table_full s'
      /\ src_verdicts src tr vs
         = replicate (length (src_times src tr)) XDP_PASS.
Proof.
  induction tr as [|[now ctx] tr IH]; intros s Hk Hnone Hfull.
  - eexists _, _, _. split; [reflexivity|]. done.
  - destruct (pure_syn_fromb src ctx) eqn:Hp.
    + destruct (step_src v src ctx now s Hp
                  (new_source_not_blocked v s src Hk Hnone))
        as (s1 & l1 & H1 & Hr1 & _).
      rewrite Hnone in H1, Hr1.
      rewrite hash_update_full in Hr1 by done.
      destruct (IH s1) as (vs & s2 & l2 & H2 & Hn2 & Hf2 & Hvs).
      { eapply step_blocked_known; eauto. }
      { by rewrite Hr1. }
      { unfold table_full. by rewrite Hr1. }
      eexists _, _, _.
      split; [exact (run_cons _ _ _ _ _ _ _ _ _ _ _ H1 H2)|].
      split; [done|]. split; [done|].
      cbn [src_verdicts src_times]. rewrite ?Hp. cbn [length replicate].
      by rewrite Hvs.
    + destruct (step_other v src ctx now s Hp)
        as (a & s1 & l1 & H1 & Hr1 & _).
      destruct (IH s1) as (vs & s2 & l2 & H2 & Hn2 & Hf2 & Hvs).
      { eapply step_blocked_known; eauto. }
      { by rewrite Hr1. }
      { pose proof (step_size_ge v ctx now s a s1 l1 H1).
        unfold table_full in *. lia. }
      eexists _, _, _.
      split; [exact (run_cons _ _ _ _ _ _ _ _ _ _ _ H1 H2)|].
      split; [done|]. split; [done|].
      cbn [src_verdicts src_times]. rewrite ?Hp. exact Hvs.
Qed.

(** C10. In both variants, in any state the deployment can reach: a pure
    SYN of a source that has no flow record gets Pass, whether or not the
    insertion of its record succeeds. When the table is full the insertion
    fails, the table is left as it was, and over any later traffic the
    source still has no record and every one of its pure SYNs gets Pass. *)
Theorem C10_new_source_fail_open
    (v : variant) (s : bpf_state) (src : Z) (ctx : xdp_md) (now : Z) :
  reachable v s ->
  rate_limit_map s !! src = None ->
  is_pure_syn_from src ctx ->
  (exists s' l,
     program v ctx now s = Done XDP_PASS s' l
     /\ (table_full s -> rate_limit_map s' = rate_limit_map s))
  /\ (table_full s ->
      forall tr, exists vs s' l,
        run (program v) s tr = Done vs s' l
        /\ rate_limit_map s' !! src = None
        /\ src_verdicts src tr vs
           = replicate (length (src_times src tr)) XDP_PASS).
Proof.
  intros Hreach Hnone Hv.
  pose proof (reachable_blocked_known v s Hreach) as Hk.
  split.
  - apply pure_syn_fromb_view in Hv.
    destruct (step_src v src ctx now s Hv
                (new_source_not_blocked v s src Hk Hnone))
      as (s1 & l1 & H1 & Hr1 & _).
    rewrite Hnone in H1, Hr1. exists s1, l1. split; [exact H1|].
    intros Hfull. by rewrite Hr1, hash_update_full.
  - intros Hfull tr.
    destruct (full_table_run v src tr s Hk Hnone Hfull)
      as (vs & s' & l & H & Hn & _ & Hvs).
    exists vs, s', l. done.
Qed.

Lemma C10_witness :
  (exists s' l,
     program Persistent syn_frame 7 init_blocklist = Done XDP_PASS s' l
     /\ (table_full init_blocklist ->
         rate_limit_map s' = rate_limit_map init_blocklist))
  /\ (table_full init_blocklist ->
      forall tr, exists vs s' l,
        run (program Persistent) init_blocklist tr = Done vs s' l
        /\ rate_limit_map s' !! src_10_0_0_7 = None
        /\ src_verdicts src_10_0_0_7 tr vs
           = replicate (length (src_times src_10_0_0_7 tr)) XDP_PASS).
Proof.
  apply (C10_new_source_fail_open Persistent init_blocklist src_10_0_0_7
           syn_frame 7).
  - exists [], [], []. reflexivity.
  - vm_compute. reflexivity.
  - reflexivity.
Defined.

(** *** A full table can be reached *)

Lemma header_view_syn_from (a b : byte) :
  header_view (syn_from a b)
  = TcpSeg (byte_val a + 256 * byte_val b + 167772160) true false.
Proof.
  unfold header_view, syn_from.
  change (frame_len _) with 54.
  change (ethertype _) with ETH_P_IP.
  change (ip_protocol _) with NEXTHDR_TCP.
  change (tcp_offset _) with 34.
  change (tcp_syn _) with true. change (tcp_ack _) with false.
  cbn [Z.ltb Z.compare Pos.compare Pos.compare_cont Z.eqb Pos.eqb negb
       ETH_P_IP NEXTHDR_TCP Z.add Pos.add].
  f_equal. unfold ip_saddr, dword_at.
  change (byte_at _ 26) with (byte_val a).
  change (byte_at _ (26 + 1)) with (byte_val b).
  change (byte_at _ (26 + 2)) with 0.
  change (byte_at _ (26 + 3)) with 10. lia.
Qed.

Lemma byte_val_byte_of (z : Z) : byte_val (byte_of z) = z mod 256.
Proof.
  unfold byte_val, byte_of.
  pose proof (Z.mod_pos_bound z 256 ltac:(lia)) as Hz.
  destruct (Byte.of_N (Z.to_N (z mod 256))) as [b|] eqn:Hb.
  - apply Byte.to_of_N in Hb. simpl. rewrite Hb. lia.
  - apply Byte.of_N_None_iff in Hb. lia.
Qed.

Lemma header_view_nth_source (k : Z) :
  0 <= k < 65536 ->
  header_view (nth_source_frame k) = TcpSeg (nth_source k) true false.
Proof.
  intros Hk. unfold nth_source_frame, nth_source.
  rewrite header_view_syn_from, !byte_val_byte_of. f_equal.
  rewrite (Z.mod_small (k / 256)) by (split; [apply Z.div_pos | apply Z.div_lt_upper_bound]; lia).
  pose proof (Z.div_mod k 256 ltac:(lia)). lia.
Qed.

Lemma fill_run (v : variant) (n : nat) :
  forall (j : Z) (s : bpf_state),
    filled s j -> 0 <= j -> j + Z.of_nat n <= HASH_MAX_ENTRIES ->
    exists vs s' l,
      run (program v) s (fill j n) = Done vs s' l
      /\ filled s' (j + Z.of_nat n).
Proof.
  induction n as [|n IH]; intros j s (Hk & Hsz & Hkeys) Hj Hn.
  - eexists _, _, _. split; [reflexivity|].
    rewrite Z.add_0_r. done.
  - assert (Hnone : rate_limit_map s !! nth_source j = None).
    { destruct (rate_limit_map s !! nth_source j) eqn:E; [|done].
      specialize (Hkeys (nth_source j) ltac:(eauto)). lia. }
    assert (Hp : pure_syn_fromb (nth_source j) (nth_source_frame j) = true).
    { apply pure_syn_fromb_view, header_view_nth_source.
      unfold HASH_MAX_ENTRIES in Hn. lia. }
    destruct (step_src v _ _ 0 s Hp
                (new_source_not_blocked v s _ Hk Hnone))
      as (s1 & l1 & H1 & Hr1 & _).
    rewrite Hnone in Hr1. rewrite hash_update_room in Hr1 by (done || lia).
    destruct (IH (j + 1) s1) as (vs & s2 & l2 & H2 & Hf2); [|lia|lia|].
    { split; [eapply step_blocked_known; eauto|]. split.
      - rewrite Hr1, map_size_insert_None by done. lia.
      - intros k Hsome. rewrite Hr1 in Hsome.
        destruct (decide (nth_source j = k)) as [<-|Hne].
        + unfold nth_source. lia.
        + rewrite lookup_insert_ne in Hsome by done.
          specialize (Hkeys k Hsome). unfold nth_source in *. lia. }
    eexists _, _, _. cbn [fill].
    split; [exact (run_cons _ _ _ _ _ _ _ _ _ _ _ H1 H2)|].
    replace (j + Z.of_nat (S n)) with (j + 1 + Z.of_nat n) by lia. done.
Qed.

(** The situation C10 speaks of exists: some traffic fills the table, and
    a further source then has no record. *)
Lemma full_table_reachable (v : variant) :
  exists s,
    reachable v s /\ table_full s
    /\ rate_limit_map s !! nth_source HASH_MAX_ENTRIES = None.
Proof.
  destruct (fill_run v (Z.to_nat HASH_MAX_ENTRIES) 0 (loaded v))
    as (vs & s & l & Hrun & Hk & Hsz & Hkeys).
  - split; [|split].
    + intros k [x Hx]. destruct v; cbn in Hx; by rewrite lookup_empty in Hx.
    + destruct v; reflexivity.
    + intros k [x Hx]. destruct v; cbn in Hx; by rewrite lookup_empty in Hx.
  - lia.
  - unfold HASH_MAX_ENTRIES. lia.
  - exists s. split; [by exists (fill 0 (Z.to_nat HASH_MAX_ENTRIES)), vs, l|].
    split.
    + unfold table_full. rewrite Hsz. unfold HASH_MAX_ENTRIES. lia.
    + destruct (rate_limit_map s !! nth_source HASH_MAX_ENTRIES) eqn:E; [|done].
      specialize (Hkeys _ ltac:(eauto)).
      unfold nth_source, HASH_MAX_ENTRIES in Hkeys. lia.
Qed.

(* ------------------------------------------------------------------ *)
(** ** The counters along a run *)

Lemma count_where_bounds (f : xdp_md -> bool) (tr : list arrival) :
  0 <= count_where f tr <= Z.of_nat (length tr).
Proof.
  induction tr as [|[now ctx] tr IH]; cbn [count_where length]; [lia|].
  destruct (f ctx); lia.
Qed.

(** Simple variant: slot 0 counts the pure SYNs, slot 1 the drops. *)
Lemma simple_counters (tr : list arrival) :
  forall (s : bpf_state) (T D : Z),
    stats_map s = [T; D] -> 0 <= D <= T ->
    T + Z.of_nat (length tr) < 2 ^ 64 ->
    exists vs s' l,
      run xdp_simple_firewall s tr = Done vs s' l
      /\ stats_map s'
         = [T + count_where is_pure_syn tr; D + count_drops vs]
      /\ 0 <= count_drops vs <= count_where is_pure_syn tr.
Proof.
  induction tr as [|[now ctx] tr IH]; intros s T D Hst HD Hlen.
  - eexists _, _, _. split; [reflexivity|]. cbn.
    rewrite !Z.add_0_r. split; [done | lia].
  - cbn [length] in Hlen.
    assert (Hstep : exists a s1 l1,
              xdp_simple_firewall ctx now s = Done a s1 l1
              /\ stats_map s1
                 = [T + (if is_pure_syn ctx then 1 else 0);
                    D + (if decide (a = XDP_DROP) then 1 else 0)]
              /\ (a = XDP_DROP -> is_pure_syn ctx = true)).
    { rewrite xdp_simple_firewall_view. unfold is_pure_syn.
      destruct (header_view ctx) as [| |k [] []];
        try (cbn [simple_engine ret]; eexists _, _, _;
             split; [reflexivity|]; rewrite Hst, !Z.add_0_r; done).
      rewrite simple_engine_syn. eexists _, _, _. split; [reflexivity|].
      cbn [stats_map with_maps]. rewrite Hst. unfold rl_verdict, bump.
      cbn [lookup list_lookup].
      destruct (_ =? 0); cbn [insert list_insert lookup list_lookup];
        rewrite ?wrap64_small by lia; cbn; rewrite ?Z.add_0_r; done. }
    destruct Hstep as (a & s1 & l1 & H1 & Hst1 & Ha).
    destruct (IH s1 _ _ Hst1) as (vs & s2 & l2 & H2 & Hst2 & Hd2).
    { destruct (is_pure_syn ctx) eqn:E; destruct (decide (a = XDP_DROP));
        try lia. specialize (Ha e). congruence. }
    { destruct (is_pure_syn ctx); lia. }
    eexists _, _, _.
    split; [exact (run_cons _ _ _ _ _ _ _ _ _ _ _ H1 H2)|].
    cbn [count_where count_drops]. rewrite Hst2.
    split; [f_equal; [lia | f_equal; lia]|].
    destruct (is_pure_syn ctx) eqn:E; destruct (decide (a = XDP_DROP));
      try lia. specialize (Ha e). congruence.
Qed.

(** Blocklist variant: the only slot counts every parsed TCP segment,
    and the blocked set never outgrows it. *)
Lemma blocklist_counters (tr : list arrival) :
  forall (s : bpf_state) (T : Z),
    stats_map s = [T] ->
    0 <= Z.of_nat (size (ip_blocked_map s)) <= T ->
    T + Z.of_nat (length tr) < 2 ^ 64 ->
    exists vs s' l,
      run xdp_firewall s tr = Done vs s' l
      /\ stats_map s' = [T + count_where is_tcp_seg tr]
      /\ Z.of_nat (size (ip_blocked_map s')) <= T + count_where is_tcp_seg tr.
Proof.
  induction tr as [|[now ctx] tr IH]; intros s T Hst Hb Hlen.
  - eexists _, _, _. split; [reflexivity|]. cbn.
    rewrite !Z.add_0_r. split; [done | lia].
  - cbn [length] in Hlen.
    assert (Hstep : exists a s1 l1,
              xdp_firewall ctx now s = Done a s1 l1
              /\ stats_map s1 = [T + (if is_tcp_seg ctx then 1 else 0)]
              /\ Z.of_nat (size (ip_blocked_map s1))
                 <= T + (if is_tcp_seg ctx then 1 else 0)).
    { rewrite xdp_firewall_view. unfold is_tcp_seg.
      destruct (header_view ctx) as [| |k syn ack];
        try (cbn [blocklist_engine ret]; eexists _, _, _;
             split; [reflexivity|]; rewrite Hst, !Z.add_0_r;
             split; [done | lia]).
      rewrite blocklist_engine_eq.
      assert (Hbump : bump 0 (stats_map s) = [T + 1]).
      { rewrite Hst. unfold bump. cbn. by rewrite wrap64_small by lia. }
      destruct (syn && negb ack).
      - destruct (ip_blocked_map s !! k).
        + eexists _, _, _. split; [reflexivity|].
          cbn [stats_map ip_blocked_map with_maps]. split; [done | lia].
        + eexists _, _, _. split; [reflexivity|].
          cbn [stats_map ip_blocked_map with_maps]. split; [done|].
          destruct (_ =? 0); [lia|].
          pose proof (hash_update_size_le (ip_blocked_map s) k 1). lia.
      - eexists _, _, _. split; [reflexivity|].
        cbn [stats_map ip_blocked_map with_maps]. split; [done | lia]. }
    destruct Hstep as (a & s1 & l1 & H1 & Hst1 & Hb1).
    destruct (IH s1 _ Hst1) as (vs & s2 & l2 & H2 & Hst2 & Hb2).
    { lia. }
    { destruct (is_tcp_seg ctx); lia. }
    eexists _, _, _.
    split; [exact (run_cons _ _ _ _ _ _ _ _ _ _ _ H1 H2)|].
    cbn [count_where]. rewrite Hst2. split; [f_equal; lia | lia].
Qed.

(** Simple variant: while fewer than 2^64 frames have been processed,
    [syn_total] is the number of pure SYNs and [syn_dropped] the number of
    drops, which is no larger. *)
Lemma simple_counters_exact (hist : list arrival) :
  Z.of_nat (length hist) < 2 ^ 64 ->
  exists vs s l,
    run xdp_simple_firewall init_simple hist = Done vs s l
    /\ read_counters_simple s
       = (count_where is_pure_syn hist, count_drops vs)
    /\ 0 <= count_drops vs <= count_where is_pure_syn hist.
Proof.
  intros Hlen.
  destruct (simple_counters hist init_simple 0 0)
    as (vs & s & l & H & Hst & Hd); [reflexivity | lia | lia |].
  exists vs, s, l. split; [exact H|]. split; [|exact Hd].
  unfold read_counters_simple. rewrite Hst. reflexivity.
Qed.

(** Blocklist variant: [syn_total] is the number of parsed TCP segments,
    pure SYN or not. *)
Lemma blocklist_counter_exact (hist : list arrival) :
  Z.of_nat (length hist) < 2 ^ 64 ->
  exists vs s l,
    run xdp_firewall init_blocklist hist = Done vs s l
    /\ (read_counters_blocklist s).1 = count_where is_tcp_seg hist.
Proof.
  intros Hlen.
  destruct (blocklist_counters hist init_blocklist 0)
    as (vs & s & l & H & Hst & _);
    [reflexivity
    | unfold init_blocklist, init_state; cbn [ip_blocked_map];
      rewrite map_size_empty; lia
    | lia |].
  exists vs, s, l. split; [exact H|].
  unfold read_counters_blocklist. rewrite Hst. reflexivity.
Qed.

(** C2. The blocklist variant increments its only counter for every parsed
    TCP segment: after a single ACK segment [syn_total] reads 1 although
    no pure SYN was seen. *)
Theorem C2_blocklist_counter_counts_every_segment :
  count_where is_pure_syn [(0, ack_frame)] = 0
  /\ read_counters Persistent
       <$> final_state (run (program Persistent) (loaded Persistent)
                          [(0, ack_frame)])
     = Some (1, 0).
Proof. split; reflexivity. Qed.

(* ------------------------------------------------------------------ *)
(** ** C6: the success rate *)

Lemma success_rate_eq (accepted total : Z) :
  success_rate accepted total
  = Ok (if total >? 0
        then (inject_Z accepted / inject_Z total * 100)%Q
        else 0%Q).
Proof.
  unfold success_rate. destruct (total >? 0) eqn:E; [|reflexivity].
  unfold py_truediv.
  assert (Hne : Qeq_bool (inject_Z total) 0 = false).
  { destruct (Qeq_bool (inject_Z total) 0) eqn:Hq; [|reflexivity].
    apply Qeq_bool_iff in Hq. unfold Qeq in Hq. cbn in Hq. lia. }
  rewrite Hne. reflexivity.
Qed.

Lemma ratio_pct_range (accepted total : Z) :
  0 <= accepted <= total -> 0 < total ->
  (0 <= inject_Z accepted / inject_Z total * 100 <= 100)%Q.
Proof.
  intros Ha Ht.
  assert (Htq : (0 < inject_Z total)%Q).
  { change 0%Q with (inject_Z 0). rewrite <- Zlt_Qlt. lia. }
  assert (H0 : (0 <= inject_Z accepted / inject_Z total)%Q).
  { apply Qle_shift_div_l; [exact Htq|]. rewrite Qmult_0_l.
    change 0%Q with (inject_Z 0). rewrite <- Zle_Qle. lia. }
  assert (H1 : (inject_Z accepted / inject_Z total <= 1)%Q).
  { apply Qle_shift_div_r; [exact Htq|]. rewrite Qmult_1_l.
    rewrite <- Zle_Qle. lia. }
  split.
  - apply Qmult_le_0_compat; [exact H0 | discriminate].
  - apply Qle_trans with (1 * 100)%Q; [|discriminate].
    apply Qmult_le_compat_r; [exact H1 | discriminate].
Qed.

(** The counters a monitor can read, in either deployment, while fewer
    than 2^64 frames have been processed. *)
Lemma counters_ordered (v : variant) (hist : list arrival) :
  Z.of_nat (length hist) < 2 ^ 64 ->
  exists vs s l,
    run (program v) (loaded v) hist = Done vs s l
    /\ 0 <= (read_counters v s).2 <= (read_counters v s).1.
Proof.
  intros Hlen. destruct v.
  - destruct (simple_counters_exact hist Hlen) as (vs & s & l & H & Hr & Hd).
    exists vs, s, l. split; [exact H|]. cbn [read_counters]. rewrite Hr.
    exact Hd.
  - destruct (blocklist_counters hist init_blocklist 0)
      as (vs & s & l & H & Hst & Hb);
      [reflexivity
      | unfold init_blocklist, init_state; cbn [ip_blocked_map];
        rewrite map_size_empty; lia
      | lia |].
    exists vs, s, l. split; [exact H|].
    cbn [read_counters]. unfold read_counters_blocklist. rewrite Hst.
    cbn [fst snd nth]. lia.
Qed.

(** The guarded expression never raises, and for the counters either XDP
    monitor can read (after fewer than 2^64 frames) its value lies in
    [0, 100]. This bounds the figure; it does not say what the two
    operands count. *)
Lemma success_rate_guarded_in_range (v : variant) (hist : list arrival) :
  Z.of_nat (length hist) < 2 ^ 64 ->
  (forall accepted total,
     success_rate accepted total
     = Ok (if total >? 0
           then (inject_Z accepted / inject_Z total * 100)%Q
           else 0%Q))
  /\ exists vs s l,
       run (program v) (loaded v) hist = Done vs s l
       /\ exists q,
            success_rate ((read_counters v s).1 - (read_counters v s).2)
              (read_counters v s).1 = Ok q
            /\ (0 <= q <= 100)%Q
            /\ ((read_counters v s).1 = 0 -> q = 0%Q).
Proof.
  intros Hlen. split; [apply success_rate_eq|].
  destruct (counters_ordered v hist Hlen) as (vs & s & l & H & Hord).
  exists vs, s, l. split; [exact H|].
  eexists. split; [apply success_rate_eq|].
  destruct ((read_counters v s).1 >? 0) eqn:E.
  - split; [apply ratio_pct_range; lia | lia].
  - split; [split; discriminate | reflexivity].
Qed.

(* ------------------------------------------------------------------ *)
(** ** C4: bounds checks *)

(** C4 as stated fails on its last clause: a 34-byte frame announcing IPv4
    and TCP whose IHL nibble is 0 passes all three bounds checks, its
    "TCP header" being read over the IPv4 header; the program takes it for
    a pure SYN, and the eleventh such frame in a window is dropped. *)
Lemma C4_counterexample :
  frame_len ihl0_frame = 34
  /\ ethertype ihl0_frame = ETH_P_IP
  /\ ip_protocol ihl0_frame = NEXTHDR_TCP
  /\ header_view ihl0_frame = TcpSeg src_10_2_0_7 true false
  /\ verdicts (run xdp_simple_firewall init_simple (burst 11 0 ihl0_frame))
     = Some (replicate 10 XDP_PASS ++ [XDP_DROP]).
Proof. repeat split; vm_compute; reflexivity. Qed.

Lemma malformed_passes (v : variant) (ctx : xdp_md) (now : Z)
    (s : bpf_state) :
  header_view ctx = Malformed \/ header_view ctx = NotApplicable ->
  program v ctx now s = Done XDP_PASS s [].
Proof.
  intros H. rewrite program_view. destruct v, H as [-> | ->]; reflexivity.
Qed.

(** C4 (amended). For every byte string and both programs: the invocation
    never faults, a read outside the frame being a fault in this model;
    a frame that fails one of the three bounds checks (shorter than 14
    bytes, IPv4 but shorter than 34 bytes, or IPv4 and TCP but shorter
    than [14 + 4*IHL + 20] bytes) is classified Malformed and passed with
    no map touched; in particular so is passed every frame shorter than
    14+20+20 bytes whose IHL nibble, when the frame is long enough to
    have one checked, is at least 5. *)
Theorem C4_bounds_checked_parse
    (v : variant) (ctx : xdp_md) (now : Z) (s : bpf_state) :
  (forall p, frame_len ctx <= p -> load_u8 ctx p now s = Fault)
  /\ (exists a s' l, program v ctx now s = Done a s' l)
  /\ (frame_len ctx < 14
      \/ (ethertype ctx = ETH_P_IP /\ frame_len ctx < 34)
      \/ (ethertype ctx = ETH_P_IP /\ ip_protocol ctx = NEXTHDR_TCP
          /\ frame_len ctx < tcp_offset ctx + 20) ->
      header_view ctx = Malformed
      /\ program v ctx now s = Done XDP_PASS s [])
  /\ (frame_len ctx < 14 + 20 + 20 ->
      (34 <= frame_len ctx -> 5 <= ip_ihl ctx) ->
      program v ctx now s = Done XDP_PASS s []).
Proof.
  split; [intros p Hp; by apply load_u8_out|].
  split; [apply program_total|].
  pose proof (header_view_spec ctx) as Hspec.
  split.
  - intros Hshort.
    assert (Hm : header_view ctx = Malformed).
    { destruct Hspec; try reflexivity; lia. }
    split; [exact Hm | apply malformed_passes; by left].
  - intros Hlen Hihl. apply malformed_passes.
    destruct Hspec; try (by left); try (by right).
    unfold tcp_offset in *. lia.
Qed.

Lemma C4_witness :
  frame_len truncated_frame = 36
  /\ ip_ihl truncated_frame = 5
  /\ header_view truncated_frame = Malformed
  /\ program Transient truncated_frame 0 init_simple
     = Done XDP_PASS init_simple [].
Proof.
  split; [reflexivity|]. split; [reflexivity|].
  pose proof (C4_bounds_checked_parse Transient truncated_frame 0 init_simple)
    as (_ & _ & H3 & H4).
  split.
  - apply H3. right. right. vm_compute. repeat split; reflexivity.
  - apply H4; vm_compute; [reflexivity | discriminate].
Defined.

(* ------------------------------------------------------------------ *)
(** ** C7: the summary on an empty series *)

(** C7. Interrupted before the first tick, the XDP summary raises
    [IndexError] at [syn_totals[-1]], and the iptables summary, which
    guards the total, the rate and both means, raises [IndexError] at
    [syn_drops[-1]]: no report is produced. *)
Theorem C7_summary_raises_on_empty_series :
  xdp_summary no_samples = Raise IndexError
  /\ iptables_summary no_samples = Raise IndexError.
Proof. split; reflexivity. Qed.

(** On a series with at least one tick the XDP summary reports the plain
    means of the CPU and PPS samples. *)
Lemma xdp_summary_means (d : series) (r : report) :
  xdp_summary d = Ok r ->
  avg_cpu_pct r = (py_sum (cpu_usages d) / py_len (cpu_usages d))%Q
  /\ avg_pps r
     = (py_sum (inject_Z <$> pps_rates d) / py_len (pps_rates d))%Q.
Proof.
  unfold xdp_summary, py_bind, py_truediv.
  destruct (py_last (syn_totals d)); [|discriminate].
  destruct (py_last (syn_drops d)); [|discriminate].
  destruct (success_rate _ _); [|discriminate].
  destruct (Qeq_bool (py_len (cpu_usages d)) 0); [discriminate|].
  destruct (Qeq_bool (py_len (pps_rates d)) 0); [discriminate|].
  intros [= <-]. split; reflexivity.
Qed.

(** The summary's rate is [success_rate] of the last samples. *)
Lemma xdp_summary_rate (d : series) (r : report) :
  xdp_summary d = Ok r ->
  exists t dr,
    last (syn_totals d) = Some t /\ last (syn_drops d) = Some dr
    /\ syn_accepted r = t - dr
    /\ success_rate (t - dr) t = Ok (success_rate_pct r).
Proof.
  unfold xdp_summary, py_bind, py_last.
  destruct (last (syn_totals d)) as [t|]; [|discriminate].
  destruct (last (syn_drops d)) as [dr|]; [|discriminate].
  destruct (success_rate (t - dr) t) as [q|] eqn:Hq; [|discriminate].
  destruct (py_truediv _ _); [|discriminate].
  destruct (py_truediv _ _); [|discriminate].
  intros [= <-]. exists t, dr. done.
Qed.

(** A tick appends one sample to each list; the totals and drops it
    appends are the counter reads. *)
Lemma tick_appends (reads : Z * Z) (cpu : Q) (prev : Z) (d : series) :
  last (syn_totals (tick reads cpu prev d).1) = Some reads.1
  /\ last (syn_drops (tick reads cpu prev d).1) = Some reads.2
  /\ last (pps_rates (tick reads cpu prev d).1) = Some (reads.1 - prev)
  /\ (tick reads cpu prev d).2 = reads.1.
Proof.
  destruct reads as [t dr]. unfold tick. cbn [fst snd syn_totals syn_drops
    pps_rates]. rewrite !last_snoc. done.
Qed.

(* ------------------------------------------------------------------ *)
(** ** C9: the iptables rule table *)

Module IptablesFacts.
Import Iptables.
Local Open Scope string_scope.

Lemma chain_rules_flush (c : string) (cs : list (string * list rule)) :
  is_Some (chain_rules c cs) ->
  chain_rules c (flush_chain <$> cs) = Some [].
Proof.
  induction cs as [|[c' rs] cs IH]; cbn; intros [x Hx]; [discriminate|].
  destruct (String.eqb c c'); [reflexivity | apply IH; eauto].
Qed.

Lemma flush_all_empty (cs : list (string * list rule)) :
  forallb removable (flush_chain <$> cs) = true.
Proof.
  induction cs as [|[c' rs] cs IH]; cbn; [reflexivity|].
  rewrite IH. unfold removable. cbn. rewrite orb_true_r. reflexivity.
Qed.

Lemma chain_rules_builtin_filter (c : string)
    (cs : list (string * list rule)) :
  builtin c = true ->
  chain_rules c (filter (fun cr => builtin cr.1 = true) cs)
  = chain_rules c cs.
Proof.
  intros Hb. induction cs as [|[c' rs] cs IH]; [reflexivity|].
  rewrite filter_cons. cbn [fst]. destruct (decide (builtin c' = true)) as [Hc|Hc].
  - cbn [chain_rules]. destruct (String.eqb c c'); [reflexivity | exact IH].
  - cbn [chain_rules]. destruct (String.eqb c c') eqn:E; [|exact IH].
    apply String.eqb_eq in E. congruence.
Qed.

Lemma append_rule_spec (c : string) (r : rule)
    (cs : list (string * list rule)) (rs : list rule) :
  chain_rules c cs = Some rs ->
  exists cs', append_rule c r cs = Some cs'
              /\ chain_rules c cs' = Some (rs ++ [r])%list.
Proof.
  revert rs. induction cs as [|[c' rs'] cs IH]; intros rs H; [discriminate|].
  cbn [chain_rules append_rule] in *.
  destruct (String.eqb c c') eqn:E.
  - injection H as ->. eexists. split; [reflexivity|].
    cbn [chain_rules]. by rewrite E.
  - destruct (IH rs H) as (cs' & -> & Hc). eexists. split; [reflexivity|].
    cbn [chain_rules]. by rewrite E.
Qed.

Lemma append_input (spec : list string) (r : rule) (t : table)
    (rs : list rule) :
  parse_rule spec any_rule = Some r ->
  chain_rules "INPUT" (chains t) = Some rs ->
  exists t', iptables ("sudo" :: "iptables" :: "-A" :: "INPUT" :: spec) t
             = Some t'
             /\ chain_rules "INPUT" (chains t') = Some (rs ++ [r])%list.
Proof.
  intros Hp Hc.
  destruct (append_rule_spec "INPUT" r (chains t) rs Hc) as (cs' & Ha & Hc').
  exists {| chains := cs' |}. split; [|exact Hc'].
  cbn [iptables]. rewrite Hp, Ha. reflexivity.
Qed.

(** The decision of the three rules on a packet. *)
Lemma three_rules_decide (p : packet) (within_limit : bool) (policy : target) :
  traverse [rule_limit_accept; rule_syn_drop; rule_accept_all] 0 p
    within_limit policy
  = if syn_packet p
    then if within_limit then (Some 0%nat, ACCEPT) else (Some 1%nat, DROP)
    else (Some 2%nat, ACCEPT).
Proof.
  cbn [traverse]. unfold rule_matches, rule_limit_accept, rule_syn_drop,
    rule_accept_all, syn_packet.
  cbn [r_proto r_syn r_limit r_target].
  change (String.eqb "tcp" "tcp") with true. cbn [andb].
  destruct (p_tcp p), (p_syn p), (p_ack p), (p_rst p), (p_fin p),
    within_limit; reflexivity.
Qed.

End IptablesFacts.

(** C9. On any filter table that has an INPUT chain, [setup_iptables]
    succeeds and leaves exactly three rules in INPUT, in this order: accept
    TCP SYN under the limit 10/second with burst 10, drop TCP SYN, accept
    everything. So a SYN is accepted exactly when the limit match lets it
    through (by rule 1, else it is dropped by rule 2), and every other
    packet is accepted by rule 3. *)
Theorem C9_three_rules_in_order
    (t : Iptables.table) (p : Iptables.packet) (within_limit : bool)
    (policy : Iptables.target) :
  Iptables.has_input t ->
  exists t',
    Iptables.run_all Iptables.setup_iptables t = Some t'
    /\ Iptables.chain_rules "INPUT" (Iptables.chains t')
       = Some [Iptables.rule_limit_accept; Iptables.rule_syn_drop;
               Iptables.rule_accept_all]
    /\ Iptables.traverse
         [Iptables.rule_limit_accept; Iptables.rule_syn_drop;
          Iptables.rule_accept_all] 0 p within_limit policy
       = if Iptables.syn_packet p
         then if within_limit then (Some 0%nat, Iptables.ACCEPT)
              else (Some 1%nat, Iptables.DROP)
         else (Some 2%nat, Iptables.ACCEPT).
Proof.
  intros Hin. unfold Iptables.has_input in Hin.
  unfold Iptables.setup_iptables.
  set (t1 := {| Iptables.chains :=
                  Iptables.flush_chain <$> Iptables.chains t |}).
  set (t2 := {| Iptables.chains :=
                  filter (fun cr => Iptables.builtin cr.1 = true)
                         (Iptables.chains t1) |}).
  assert (H2 : Iptables.chain_rules "INPUT" (Iptables.chains t2) = Some []).
  { unfold t2. cbn [Iptables.chains].
    rewrite IptablesFacts.chain_rules_builtin_filter by reflexivity.
    by apply IptablesFacts.chain_rules_flush. }
  destruct (IptablesFacts.append_input
              ["-p"; "tcp"; "--syn"; "-m"; "limit"; "--limit"; "10/second";
               "--limit-burst"; "10"; "-j"; "ACCEPT"]%string
              Iptables.rule_limit_accept t2 [] eq_refl H2)
    as (t3 & E3 & H3).
  destruct (IptablesFacts.append_input
              ["-p"; "tcp"; "--syn"; "-j"; "DROP"]%string
              Iptables.rule_syn_drop t3 _ eq_refl H3)
    as (t4 & E4 & H4).
  destruct (IptablesFacts.append_input
              ["-j"; "ACCEPT"]%string
              Iptables.rule_accept_all t4 _ eq_refl H4)
    as (t5 & E5 & H5).
  exists t5. split; [|split; [exact H5 | apply IptablesFacts.three_rules_decide]].
  cbn [Iptables.run_all].
  change (Iptables.iptables ["sudo"; "iptables"; "-F"]%string t) with (Some t1).
  cbn iota.
  assert (EX : Iptables.iptables ["sudo"; "iptables"; "-X"]%string t1 = Some t2).
  { cbn [Iptables.iptables]. unfold t1 at 1. cbn [Iptables.chains].
    rewrite IptablesFacts.flush_all_empty. reflexivity. }
  rewrite EX, E3, E4, E5. reflexivity.
Qed.

Lemma C9_witness :
  exists t',
    Iptables.run_all Iptables.setup_iptables Iptables.sample_table = Some t'
    /\ Iptables.chain_rules "INPUT" (Iptables.chains t')
       = Some [Iptables.rule_limit_accept; Iptables.rule_syn_drop;
               Iptables.rule_accept_all]
    /\ Iptables.traverse
         [Iptables.rule_limit_accept; Iptables.rule_syn_drop;
          Iptables.rule_accept_all] 0
         {| Iptables.p_tcp := true; Iptables.p_syn := true;
            Iptables.p_ack := false; Iptables.p_rst := false;
            Iptables.p_fin := false |} false Iptables.ACCEPT
       = if Iptables.syn_packet
              {| Iptables.p_tcp := true; Iptables.p_syn := true;
                 Iptables.p_ack := false; Iptables.p_rst := false;
                 Iptables.p_fin := false |}
         then if false then (Some 0%nat, Iptables.ACCEPT)
              else (Some 1%nat, Iptables.DROP)
         else (Some 2%nat, Iptables.ACCEPT).
Proof.
  apply (C9_three_rules_in_order Iptables.sample_table).
  exists [Iptables.rule_syn_drop]. reflexivity.
Defined.

(* ================================================================== *)
(** * Further properties of the engines *)

(** X1. Neither program ever returns [XDP_ABORTED], and a Drop is only
    ever given to a pure SYN: either its source is in the blocked set
    (blocklist variant), or its flow record is in an open window and the
    incremented count exceeds the threshold. *)
Theorem X1_drop_only_for_pure_syn
    (v : variant) (ctx : xdp_md) (now : Z) (s : bpf_state) :
  exists a s' l,
    program v ctx now s = Done a s' l
    /\ a <> XDP_ABORTED
    /\ (a = XDP_DROP ->
        exists src,
          header_view ctx = TcpSeg src true false
          /\ ((v = Persistent /\ is_Some (ip_blocked_map s !! src))
              \/ exists rv,
                   rate_limit_map s !! src = Some rv
                   /\ expired rv now = false
                   /\ wrap64 (count rv + 1) > THRESHOLD)).
Proof.
  assert (Hrl : forall src,
            rl_verdict (rate_limit_map s !! src) now = XDP_DROP ->
            exists rv, rate_limit_map s !! src = Some rv
                       /\ expired rv now = false
                       /\ wrap64 (count rv + 1) > THRESHOLD).
  { intros src. unfold rl_verdict, rl_result.
    destruct (rate_limit_map s !! src) as [rv|]; [|discriminate].
    destruct (expired rv now) eqn:He; [discriminate|]. cbn [count fst].
    destruct (wrap64 (count rv + 1) >? THRESHOLD) eqn:Hgt; [|discriminate].
    intros _. exists rv. split; [reflexivity|]. split; [exact He|].
    apply Z.gtb_gt. exact Hgt. }
  rewrite program_view. destruct v.
  - destruct (header_view ctx) as [| |src [] []] eqn:Hv;
      try (cbn [simple_engine ret]; eexists _, _, _;
           split; [reflexivity|]; split; [discriminate | discriminate]).
    rewrite simple_engine_syn. eexists _, _, _. split; [reflexivity|].
    split.
    + unfold rl_verdict. destruct (_ =? 0); discriminate.
    + intros Hd. exists src. split; [reflexivity|]. right. by apply Hrl.
  - destruct (header_view ctx) as [| |src syn ack] eqn:Hv;
      try (cbn [blocklist_engine ret]; eexists _, _, _;
           split; [reflexivity|]; split; [discriminate | discriminate]).
    rewrite blocklist_engine_eq.
    destruct syn, ack; cbn [andb negb];
      try (eexists _, _, _; split; [reflexivity|];
           split; [discriminate | discriminate]).
    destruct (ip_blocked_map s !! src) as [one|] eqn:Hb.
    + eexists _, _, _. split; [reflexivity|]. split; [discriminate|].
      intros _. exists src. split; [reflexivity|]. left. eauto.
    + eexists _, _, _. split; [reflexivity|]. split.
      * unfold rl_verdict. destruct (_ =? 0); discriminate.
      * intros Hd. exists src. split; [reflexivity|]. right. by apply Hrl.
Qed.

Lemma X1_witness :
  exists src,
    header_view syn_frame = TcpSeg src true false
    /\ ((Persistent = Persistent
         /\ is_Some (ip_blocked_map blocked_state !! src))
        \/ exists rv,
             rate_limit_map blocked_state !! src = Some rv
             /\ expired rv 12 = false
             /\ wrap64 (count rv + 1) > THRESHOLD).
Proof.
  destruct (X1_drop_only_for_pure_syn Persistent syn_frame 12 blocked_state)
    as (a & s' & l & H & _ & Hdrop).
  apply Hdrop. vm_compute in H. by injection H as <- _ _.
Defined.

(** X2. Traffic that contains no pure SYN of a source leaves that
    source's flow record and blocklist entry exactly as they were, and
    performs no write to its flow record. *)
Theorem X2_other_traffic_leaves_flow_alone
    (v : variant) (src : Z) (tr : list arrival) (s : bpf_state) :
  src_times src tr = [] ->
  exists vs s' l,
    run (program v) s tr = Done vs s' l
    /\ rate_limit_map s' !! src = rate_limit_map s !! src
    /\ ip_blocked_map s' !! src = ip_blocked_map s !! src
    /\ Forall (fun e => ~ writes_flow src e) l.
Proof.
  revert s. induction tr as [|[now ctx] tr IH]; intros s Hts.
  - eexists _, _, _. split; [reflexivity|]. repeat split. constructor.
  - cbn [src_times] in Hts.
    destruct (pure_syn_fromb src ctx) eqn:Hp; [discriminate|].
    destruct (step_other v src ctx now s Hp)
      as (a & s1 & l1 & H1 & Hr1 & Hb1 & Hl1).
    destruct (IH s1 Hts) as (vs & s2 & l2 & H2 & Hr2 & Hb2 & Hl2).
    eexists _, _, _.
    split; [exact (run_cons _ _ _ _ _ _ _ _ _ _ _ H1 H2)|].
    split; [congruence|]. split; [congruence|]. by apply Forall_app.
Qed.

Lemma X2_witness :
  exists vs s' l,
    run (program Persistent) blocked_state
      [(20, ihl0_frame); (21, truncated_frame)] = Done vs s' l
    /\ rate_limit_map s' !! src_10_0_0_7
       = rate_limit_map blocked_state !! src_10_0_0_7
    /\ ip_blocked_map s' !! src_10_0_0_7
       = ip_blocked_map blocked_state !! src_10_0_0_7
    /\ Forall (fun e => ~ writes_flow src_10_0_0_7 e) l.
Proof.
  apply (X2_other_traffic_leaves_flow_alone Persistent src_10_0_0_7
           [(20, ihl0_frame); (21, truncated_frame)] blocked_state).
  reflexivity.
Defined.

Lemma hash_update_size_cap {V} (m : gmap Z V) (k : Z) (v : V) :
  Z.of_nat (size m) <= HASH_MAX_ENTRIES ->
  Z.of_nat (size (hash_update m k v)) <= HASH_MAX_ENTRIES.
Proof.
  intros Hm. unfold hash_update. destruct (m !! k) as [x|] eqn:Hk.
  - rewrite map_size_insert_Some by eauto. exact Hm.
  - destruct (Z.of_nat (size m) <? HASH_MAX_ENTRIES) eqn:E; [|exact Hm].
    rewrite map_size_insert_None by done. lia.
Qed.

(** X3. Whatever traffic a freshly loaded program has processed, the
    rate-limit table and the blocklist each hold at most 16384 entries. *)
Theorem X3_tables_stay_within_capacity (v : variant) (hist : list arrival) :
  exists vs s l,
    run (program v) (loaded v) hist = Done vs s l
    /\ Z.of_nat (size (rate_limit_map s)) <= HASH_MAX_ENTRIES
    /\ Z.of_nat (size (ip_blocked_map s)) <= HASH_MAX_ENTRIES.
Proof.
  destruct (run_total v hist (loaded v)) as (vs & s & l & Hrun).
  exists vs, s, l. split; [exact Hrun|].
  eapply (run_invariant v
            (fun s => Z.of_nat (size (rate_limit_map s)) <= HASH_MAX_ENTRIES
                      /\ Z.of_nat (size (ip_blocked_map s))
                         <= HASH_MAX_ENTRIES));
    [| |exact Hrun].
  - intros ctx now s0 a s1 l1 [Hr Hb] H.
    destruct (step_shape v ctx now s0) as (a' & s1' & l1' & H1 & Hr1 & Hb1).
    rewrite H in H1. injection H1 as <- <- <-. split.
    + destruct Hr1 as [->|(k & x & ->)];
        [exact Hr | by apply hash_update_size_cap].
    + destruct Hb1 as [->|(k & _ & ->)];
        [exact Hb | by apply hash_update_size_cap].
  - assert (H0 : Z.of_nat (size (∅ : gmap Z rate_val)) <= HASH_MAX_ENTRIES
                 /\ Z.of_nat (size (∅ : gmap Z Z)) <= HASH_MAX_ENTRIES).
    { rewrite !map_size_empty. unfold HASH_MAX_ENTRIES. lia. }
    destruct v; exact H0.
Qed.

(** X7. Nothing is ever evicted: a source that has a flow record, or a
    blocklist entry, still has one after any further traffic. *)
Theorem X7_entries_are_never_removed
    (v : variant) (tr : list arrival) (s : bpf_state) (k : Z) :
  exists vs s' l,
    run (program v) s tr = Done vs s' l
    /\ (is_Some (rate_limit_map s !! k) -> is_Some (rate_limit_map s' !! k))
    /\ (is_Some (ip_blocked_map s !! k) -> is_Some (ip_blocked_map s' !! k)).
Proof.
  destruct (run_total v tr s) as (vs & s' & l & Hrun).
  exists vs, s', l. split; [exact Hrun|].
  split; intros Hk.
  - eapply (run_invariant v (fun s => is_Some (rate_limit_map s !! k)));
      [|exact Hk|exact Hrun].
    intros ctx now s0 a s1 l1 H0 H.
    destruct (step_shape v ctx now s0) as (a' & s1' & l1' & H1 & Hr1 & _).
    rewrite H in H1. injection H1 as <- <- <-.
    destruct Hr1 as [->|(j & x & ->)]; [exact H0 | by apply hash_update_keeps].
  - eapply (run_invariant v (fun s => is_Some (ip_blocked_map s !! k)));
      [|exact Hk|exact Hrun].
    intros ctx now s0 a s1 l1 H0 H.
    destruct (step_shape v ctx now s0) as (a' & s1' & l1' & H1 & _ & Hb1).
    rewrite H in H1. injection H1 as <- <- <-.
    destruct Hb1 as [->|(j & _ & ->)]; [exact H0 | by apply hash_update_keeps].
Qed.

Lemma X7_witness :
  exists vs s' l,
    run (program Transient) blocked_state (burst 3 5000000000 syn_frame)
    = Done vs s' l
    /\ is_Some (rate_limit_map s' !! src_10_0_0_7).
Proof.
  destruct (X7_entries_are_never_removed Transient
              (burst 3 5000000000 syn_frame) blocked_state src_10_0_0_7)
    as (vs & s' & l & H & Hr & _).
  exists vs, s', l. split; [exact H|].
  apply Hr. exists {| last_ts := 0; count := 11 |}. vm_compute. reflexivity.
Defined.

Lemma in_window_not_expired (t1 now c : Z) :
  in_window t1 now -> expired {| last_ts := t1; count := c |} now = false.
Proof.
  unfold expired, in_window, TIME_WINDOW_NS. cbn [last_ts]. intros H.
  rewrite wrap64_small; lia.
Qed.

Lemma rl_result_in_window (t1 now c : Z) :
  in_window t1 now -> 0 <= c -> c + 1 < 2 ^ 64 ->
  rl_result (Some {| last_ts := t1; count := c |}) now
  = (if c + 1 >? THRESHOLD then 1 else 0,
     {| last_ts := t1; count := c + 1 |}).
Proof.
  intros Hw H0 Hc. unfold rl_result.
  rewrite in_window_not_expired by done. cbn [last_ts count].
  rewrite wrap64_small by lia. reflexivity.
Qed.

(** With the window open at count [c], the pure SYNs of the source that
    bring the count up to 10 pass and all later ones in the window are
    dropped. *)
Lemma sustained_run (v : variant) (src t1 : Z) (tr : list arrival) :
  forall (s : bpf_state) (c : Z),
    rate_limit_map s !! src = Some {| last_ts := t1; count := c |} ->
    1 <= c ->
    (c < THRESHOLD -> not_blocked v s src) ->
    Forall (in_window t1) (src_times src tr) ->
    c + Z.of_nat (length (src_times src tr)) < 2 ^ 64 ->
    exists vs s' l,
      run (program v) s tr = Done vs s' l
      /\ src_verdicts src tr vs
         = replicate (length (src_times src tr) `min` Z.to_nat (THRESHOLD - c))
             XDP_PASS
           ++ replicate (length (src_times src tr) - Z.to_nat (THRESHOLD - c))
                XDP_DROP.
Proof.
  induction tr as [|[now ctx] tr IH]; intros s c Hrv Hc Hnb Hw Hn.
  - eexists _, _, _. split; [reflexivity|]. reflexivity.
  - cbn [src_times] in *.
    destruct (pure_syn_fromb src ctx) eqn:Hp.
    + apply Forall_cons in Hw as [Hnow Hw]. cbn [length] in Hn |- *.
      assert (Hblk : not_blocked v s src \/
                     (v = Persistent /\ is_Some (ip_blocked_map s !! src))).
      { destruct v; [by left|]. cbn.
        destruct (ip_blocked_map s !! src); [right; eauto | by left]. }
      destruct Hblk as [Hfree|[-> Hsome]].
      * destruct (step_src v src ctx now s Hp Hfree)
          as (s1 & l1 & H1 & Hr1 & Hnb1).
        rewrite Hrv in H1, Hr1, Hnb1.
        unfold rl_verdict in H1, Hnb1.
        rewrite rl_result_in_window in H1, Hr1, Hnb1 by (done || lia).
        cbn [fst snd] in H1, Hr1, Hnb1.
        assert (Hrv1 : rate_limit_map s1 !! src
                       = Some {| last_ts := t1; count := c + 1 |}).
        { rewrite Hr1, hash_update_present by eauto. apply lookup_insert_eq. }
        destruct (IH s1 (c + 1) Hrv1) as (vs & s2 & l2 & H2 & Hvs);
          [lia | | exact Hw | lia |].
        { intros Hlt. apply Hnb1.
          destruct (c + 1 >? THRESHOLD) eqn:E; [lia | reflexivity]. }
        eexists _, _, _.
        split; [exact (run_cons _ _ _ _ _ _ _ _ _ _ _ H1 H2)|].
        cbn [src_verdicts]. rewrite ?Hp, Hvs.
        destruct (c + 1 >? THRESHOLD) eqn:E; cbn [Z.eqb].
        -- replace (Z.to_nat (THRESHOLD - c)) with 0%nat by lia.
           replace (Z.to_nat (THRESHOLD - (c + 1))) with 0%nat by lia.
           rewrite !Nat.min_0_r, !Nat.sub_0_r. reflexivity.
        -- replace (Z.to_nat (THRESHOLD - c))
             with (S (Z.to_nat (THRESHOLD - (c + 1)))) by lia.
           reflexivity.
      * assert (Hge : THRESHOLD <= c).
        { destruct (Z_lt_le_dec c THRESHOLD) as [Hlt|Hge]; [|exact Hge].
          specialize (Hnb Hlt). cbn in Hnb. destruct Hsome as [x Hx].
          congruence. }
        apply pure_syn_fromb_view in Hp.
        destruct (step_blocked src ctx now s Hp Hsome)
          as (s1 & l1 & H1 & Hr1 & Hb1 & _).
        destruct (IH s1 c) as (vs & s2 & l2 & H2 & Hvs);
          [by rewrite Hr1 | exact Hc | lia | exact Hw | lia |].
        eexists _, _, _.
        split; [exact (run_cons _ _ _ _ _ _ _ _ _ _ _ H1 H2)|].
        cbn [src_verdicts]. apply pure_syn_fromb_view in Hp. rewrite ?Hp, Hvs.
        replace (Z.to_nat (THRESHOLD - c)) with 0%nat by lia.
        rewrite !Nat.min_0_r, !Nat.sub_0_r. reflexivity.
    + destruct (step_other v src ctx now s Hp)
        as (a & s1 & l1 & H1 & Hr1 & Hb1 & _).
      destruct (IH s1 c) as (vs & s2 & l2 & H2 & Hvs);
        [by rewrite Hr1 | exact Hc | | exact Hw | exact Hn |].
      { intros Hlt. specialize (Hnb Hlt). destruct v; [done|].
        cbn in *. congruence. }
      eexists _, _, _.
      split; [exact (run_cons _ _ _ _ _ _ _ _ _ _ _ H1 H2)|].
      cbn [src_verdicts]. rewrite ?Hp. exact Hvs.
Qed.

(** X4. In both variants, when a pure SYN of a source starts a window at
    [t1] and [n] more pure SYNs of that source follow within
    [t1, t1 + 2 s] (with any other traffic in between, [n] below 2^64),
    the first ten of the [n + 1] get Pass and every later one gets
    Drop. *)
Theorem X4_sustained_burst
    (v : variant) (s : bpf_state) (src t1 : Z) (ctx1 : xdp_md)
    (tr : list arrival) :
  not_blocked v s src ->
  opens_window s src t1 ->
  pure_syn_fromb src ctx1 = true ->
  Forall (in_window t1) (src_times src tr) ->
  Z.of_nat (length (src_times src tr)) < 2 ^ 64 - 1 ->
  exists vs s' l,
    run (program v) s ((t1, ctx1) :: tr) = Done vs s' l
    /\ src_verdicts src ((t1, ctx1) :: tr) vs
       = replicate (S (length (src_times src tr)) `min` 10) XDP_PASS
         ++ replicate (S (length (src_times src tr)) - 10) XDP_DROP.
Proof.
  intros Hnb Hopen Hp Hw Hlen.
  destruct (step_src v src ctx1 t1 s Hp Hnb) as (s1 & l1 & H1 & Hr1 & Hnb1).
  assert (Hres : rl_result (rate_limit_map s !! src) t1
                 = (0, {| last_ts := t1; count := 1 |})).
  { unfold opens_window in Hopen. unfold rl_result.
    destruct (rate_limit_map s !! src); [by rewrite Hopen | reflexivity]. }
  assert (Hrv1 : rate_limit_map s1 !! src
                 = Some {| last_ts := t1; count := 1 |}).
  { rewrite Hr1, Hres. cbn [snd]. unfold opens_window in Hopen.
    destruct (rate_limit_map s !! src) eqn:Hf.
    - rewrite hash_update_present by eauto. apply lookup_insert_eq.
    - rewrite hash_update_room by done. apply lookup_insert_eq. }
  unfold rl_verdict in H1, Hnb1. rewrite Hres in H1, Hnb1.
  cbn [fst Z.eqb] in H1, Hnb1.
  destruct (sustained_run v src t1 tr s1 1 Hrv1)
    as (vs & s2 & l2 & H2 & Hvs);
    [lia | intros _; by apply Hnb1 | exact Hw | lia |].
  eexists _, _, _.
  split; [exact (run_cons _ _ _ _ _ _ _ _ _ _ _ H1 H2)|].
  cbn [src_verdicts]. rewrite ?Hp, Hvs.
  change (Z.to_nat (THRESHOLD - 1)) with 9%nat.
  change 10%nat with (S 9). cbn [Nat.min Nat.sub replicate app]. reflexivity.
Qed.

Lemma X4_witness :
  exists vs s' l,
    run (program Transient) init_simple ((0, syn_frame) :: burst 12 1 syn_frame)
    = Done vs s' l
    /\ src_verdicts src_10_0_0_7 ((0, syn_frame) :: burst 12 1 syn_frame) vs
       = replicate
           (S (length (src_times src_10_0_0_7 (burst 12 1 syn_frame))) `min` 10)
           XDP_PASS
         ++ replicate
              (S (length (src_times src_10_0_0_7 (burst 12 1 syn_frame))) - 10)
              XDP_DROP.
Proof.
  apply (X4_sustained_burst Transient init_simple src_10_0_0_7 0 syn_frame
           (burst 12 1 syn_frame)).
  - exact I.
  - vm_compute. reflexivity.
  - reflexivity.
  - repeat constructor; unfold in_window, TIME_WINDOW_NS; lia.
  - vm_compute. reflexivity.
Defined.



(** X6. Blocklist variant: the number of blocked addresses grows by at
    most the number of Drop verdicts given, so the monitor's "SYN
    Blocked" figure [len(ip_blocked_map)] never exceeds the number of
    SYNs the program has dropped. *)
Theorem X6_blocked_addresses_at_most_drops
    (tr : list arrival) (s : bpf_state) :
  exists vs s' l,
    run xdp_firewall s tr = Done vs s' l
    /\ Z.of_nat (size (ip_blocked_map s'))
       <= Z.of_nat (size (ip_blocked_map s)) + count_drops vs.
Proof.
  revert s. induction tr as [|[now ctx] tr IH]; intros s.
  - eexists _, _, _. split; [reflexivity|]. cbn. lia.
  - assert (Hstep : exists a s1 l1,
              xdp_firewall ctx now s = Done a s1 l1
              /\ Z.of_nat (size (ip_blocked_map s1))
                 <= Z.of_nat (size (ip_blocked_map s))
                    + (if decide (a = XDP_DROP) then 1 else 0)).
    { rewrite xdp_firewall_view.
      destruct (header_view ctx) as [| |k syn ack];
        try (cbn [blocklist_engine ret]; eexists _, _, _;
             split; [reflexivity|]; destruct (decide _); lia).
      rewrite blocklist_engine_eq.
      destruct (syn && negb ack).
      - destruct (ip_blocked_map s !! k).
        + eexists _, _, _. split; [reflexivity|].
          cbn [ip_blocked_map with_maps]. destruct (decide _); lia.
        + eexists _, _, _. split; [reflexivity|].
          cbn [ip_blocked_map with_maps]. unfold rl_verdict.
          pose proof (hash_update_size_le (ip_blocked_map s) k 1).
          destruct (_ =? 0); destruct (decide _); try lia; congruence.
      - eexists _, _, _. split; [reflexivity|].
        cbn [ip_blocked_map with_maps]. destruct (decide _); lia. }
    destruct Hstep as (a & s1 & l1 & H1 & Hb1).
    destruct (IH s1) as (vs & s2 & l2 & H2 & Hb2).
    eexists _, _, _.
    split; [exact (run_cons _ _ _ _ _ _ _ _ _ _ _ H1 H2)|].
    cbn [count_drops]. destruct (decide _); lia.
Qed.

(* ================================================================== *)
(** * The monitoring loops *)

Lemma run_app (P : xdp_md -> M xdp_action) (tr1 tr2 : list arrival)
    (s : bpf_state) :
  run P s (tr1 ++ tr2)
  = match run P s tr1 with
    | Fault => Fault
    | Done vs1 s1 l1 =>
        match run P s1 tr2 with
        | Fault => Fault
        | Done vs2 s2 l2 => Done (vs1 ++ vs2) s2 (l1 ++ l2)
        end
    end.
Proof.
  revert s. induction tr1 as [|[now ctx] tr1 IH]; intros s.
  - cbn. destruct (run P s tr2); reflexivity.
  - cbn [app run]. destruct (P ctx now s) as [|a s1 l1]; [reflexivity|].
    rewrite IH. destruct (run P s1 tr1) as [|vs1 s2 l2]; [reflexivity|].
    destruct (run P s2 tr2) as [|vs2 s3 l3]; [reflexivity|].
    by rewrite app_assoc.
Qed.

Lemma py_sum_snoc (l : list Q) (x : Q) :
  py_sum (l ++ [x]) = (py_sum l + x)%Q.
Proof. unfold py_sum. by rewrite foldl_app. Qed.

Lemma py_len_pos {A} (l : list A) :
  l <> [] -> Qeq_bool (py_len l) 0 = false.
Proof.
  intros Hl. unfold py_len.
  destruct (Qeq_bool _ 0) eqn:E; [|reflexivity].
  apply Qeq_bool_iff in E. unfold Qeq in E. cbn in E.
  destruct l; [done | cbn in E; lia].
Qed.

(** The summary on a series that has at least one sample. *)
Lemma xdp_summary_ok (d : series) (t dr : Z) :
  last (syn_totals d) = Some t -> last (syn_drops d) = Some dr ->
  cpu_usages d <> [] -> pps_rates d <> [] ->
  xdp_summary d
  = Ok {| syn_total := t; syn_blocked := dr; syn_accepted := t - dr;
          success_rate_pct :=
            (if t >? 0 then (inject_Z (t - dr) / inject_Z t * 100)%Q
             else 0%Q);
          avg_cpu_pct := (py_sum (cpu_usages d) / py_len (cpu_usages d))%Q;
          avg_pps := (py_sum (inject_Z <$> pps_rates d)
                      / py_len (pps_rates d))%Q |}.
Proof.
  intros Ht Hd Hc Hp. unfold xdp_summary, py_last. rewrite Ht, Hd.
  cbn [py_bind]. rewrite success_rate_eq. cbn [py_bind].
  unfold py_truediv. rewrite !py_len_pos by done. reflexivity.
Qed.

Lemma monitor_loop_inv (v : variant) (segs : list (list arrival * Q)) :
  forall (s : bpf_state) (prev : Z) (d : series) (n : nat),
    series_len d n ->
    (py_sum (inject_Z <$> pps_rates d) == inject_Z prev)%Q ->
    exists d' prev' s' vs l,
      monitor_loop v segs s prev d = Some (d', prev', s')
      /\ run (program v) s (all_traffic segs) = Done vs s' l
      /\ series_len d' (n + length segs)
      /\ (py_sum (inject_Z <$> pps_rates d') == inject_Z prev')%Q
      /\ (segs <> [] \/ synced v d prev s -> synced v d' prev' s').
Proof.
  induction segs as [|[tr cpu] segs IH]; intros s prev d n Hlen Hsum.
  - exists d, prev, s, [], []. split; [reflexivity|]. split; [reflexivity|].
    rewrite Nat.add_0_r. split; [exact Hlen|]. split; [exact Hsum|].
    intros [H|H]; done.
  - cbn [monitor_loop]. unfold all_traffic. cbn [fmap list_fmap concat fst].
    rewrite run_app.
    destruct (run_total v tr s) as (vs1 & s1 & l1 & H1). rewrite H1.
    destruct (read_counters v s1) as [t dr] eqn:Hrc. cbn [tick].
    destruct Hlen as (L1 & L2 & L3 & L4).
    destruct (IH s1 t
                {| syn_totals := syn_totals d ++ [t];
                   syn_drops := syn_drops d ++ [dr];
                   cpu_usages := cpu_usages d ++ [cpu];
                   pps_rates := pps_rates d ++ [t - prev] |} (S n))
      as (d' & prev' & s' & vs & l & Hm & Hr & Hl' & Hs' & Hsy).
    { unfold series_len. cbn [syn_totals syn_drops cpu_usages pps_rates].
      rewrite !length_app. cbn [length]. repeat split; lia. }
    { cbn [pps_rates]. rewrite fmap_app. cbn [fmap list_fmap].
      rewrite py_sum_snoc, Hsum, <- inject_Z_plus.
      replace (prev + (t - prev)) with t by lia. reflexivity. }
    exists d', prev', s', (vs1 ++ vs), (l1 ++ l).
    split; [exact Hm|].
    fold (all_traffic segs). rewrite Hr. split; [reflexivity|].
    split; [cbn [length]; by replace (n + S (length segs))%nat
                               with (S n + length segs)%nat by lia|].
    split; [exact Hs'|].
    intros _. apply Hsy. right. unfold synced. rewrite Hrc.
    cbn [syn_totals syn_drops fst snd]. by rewrite !last_snoc.
Qed.





(** The loop of [monitor_iptables] keeps the four lists equally long,
    remembers the last reads, and its PPS samples add up to the sum of
    the last two reads. *)
Lemma iptables_loop_inv (ticks : list ((Z * Z) * Q)) :
  forall (prev : Z * Z) (d : series) (n : nat),
    series_len d n ->
    (py_sum (inject_Z <$> pps_rates d) == inject_Z (prev.1 + prev.2))%Q ->
    (n <> 0%nat ->
     last (syn_totals d) = Some prev.1 /\ last (syn_drops d) = Some prev.2) ->
    let d' := (iptables_loop ticks prev d).1 in
    let prev' := (iptables_loop ticks prev d).2 in
    series_len d' (n + length ticks)
    /\ (py_sum (inject_Z <$> pps_rates d') == inject_Z (prev'.1 + prev'.2))%Q
    /\ ((n + length ticks)%nat <> 0%nat ->
        last (syn_totals d') = Some prev'.1
        /\ last (syn_drops d') = Some prev'.2)
    /\ prev' = default prev (last (fst <$> ticks)).
Proof.
  induction ticks as [|[[a dr] cpu] ticks IH]; intros prev d n Hlen Hsum Hlast.
  - cbn. rewrite Nat.add_0_r. done.
  - cbn [iptables_loop iptables_tick].
    destruct Hlen as (L1 & L2 & L3 & L4).
    specialize (IH (a, dr)
                  {| syn_totals := syn_totals d ++ [a];
                     syn_drops := syn_drops d ++ [dr];
                     cpu_usages := cpu_usages d ++ [cpu];
                     pps_rates := pps_rates d
                                  ++ [a - prev.1 + (dr - prev.2)] |} (S n)).
    cbn zeta in IH.
    destruct IH as (Hl' & Hs' & Hla' & Hp').
    { unfold series_len. cbn [syn_totals syn_drops cpu_usages pps_rates].
      rewrite !length_app. cbn [length]. repeat split; lia. }
    { cbn [pps_rates fst snd]. rewrite fmap_app. cbn [fmap list_fmap].
      rewrite py_sum_snoc, Hsum, <- inject_Z_plus.
      replace (prev.1 + prev.2 + (a - prev.1 + (dr - prev.2)))
        with (a + dr) by lia. reflexivity. }
    { intros _. cbn [syn_totals syn_drops fst snd]. by rewrite !last_snoc. }
    cbn [length]. replace (n + S (length ticks))%nat
      with (S n + length ticks)%nat by lia.
    split; [exact Hl'|]. split; [exact Hs'|]. split; [exact Hla'|].
    rewrite Hp'. cbn [fmap list_fmap fst].
    destruct ticks as [|t ticks]; [reflexivity|].
    cbn [fmap list_fmap]. rewrite last_cons_cons.
    destruct (proj2 (last_is_Some (t.1 :: (fst <$> ticks)))) as [x Hx];
      [done|].
    rewrite Hx. reflexivity.
Qed.

(** X10. [monitor_iptables] interrupted after at least one tick, the last
    reads [(accept, drop)] being non-negative: the summary is produced
    without an exception, with total [accept + drop], a success rate of
    [accept / total * 100] within [0, 100] (0 when the total is 0), and
    as average PPS the total divided by the number of ticks. *)
Theorem X10_iptables_monitor_summary
    (ticks : list ((Z * Z) * Q)) (a dr : Z) :
  last (fst <$> ticks) = Some (a, dr) ->
  0 <= a -> 0 <= dr ->
  exists r,
    monitor_iptables ticks = Ok r
    /\ syn_total r = a + dr
    /\ syn_accepted r = a
    /\ syn_blocked r = dr
    /\ (0 <= success_rate_pct r <= 100)%Q
    /\ (a + dr = 0 -> success_rate_pct r = 0%Q)
    /\ (0 < a + dr ->
        success_rate_pct r = (inject_Z a / inject_Z (a + dr) * 100)%Q)
    /\ (avg_pps r
        == inject_Z (a + dr) / inject_Z (Z.of_nat (length ticks)))%Q.
Proof.
  intros Hlast Ha Hd.
  assert (Hne : ticks <> []) by (destruct ticks; [discriminate | done]).
  pose proof (iptables_loop_inv ticks (0, 0) no_samples 0) as Hinv.
  cbn zeta in Hinv.
  destruct Hinv as ((L1 & L2 & L3 & L4) & Hsum & Hla & Hprev);
    [done | reflexivity | done |].
  rewrite Hlast in Hprev. cbn [default from_option id] in Hprev.
  unfold monitor_iptables.
  set (d := (iptables_loop ticks (0, 0) no_samples).1) in *.
  rewrite Hprev in Hsum, Hla. cbn [fst snd] in Hsum, Hla.
  assert (Hn : (0 + length ticks)%nat <> 0%nat)
    by (destruct ticks; [done | cbn; lia]).
  destruct (Hla Hn) as (Hta & Htd).
  assert (Hacc : syn_totals d <> []) by (intros E; by rewrite E in Hta).
  assert (Hdrp : syn_drops d <> []) by (intros E; by rewrite E in Htd).
  assert (Hc : cpu_usages d <> [])
    by (destruct (cpu_usages d); [cbn in L3; lia | done]).
  assert (Hp : pps_rates d <> [])
    by (destruct (pps_rates d); [cbn in L4; lia | done]).
  unfold iptables_summary, py_last.
  rewrite !bool_decide_eq_false_2 by done.
  rewrite Hta, Htd. cbn [negb andb py_bind].
  unfold py_truediv. rewrite !py_len_pos by done.
  destruct (a + dr >? 0) eqn:E.
  - assert (Hq : Qeq_bool (inject_Z (a + dr)) 0 = false).
    { destruct (Qeq_bool _ 0) eqn:Hq; [|reflexivity].
      apply Qeq_bool_iff in Hq. unfold Qeq in Hq. cbn in Hq. lia. }
    rewrite Hq. cbn [py_bind]. eexists. split; [reflexivity|].
    cbn [syn_total syn_accepted syn_blocked success_rate_pct avg_pps].
    repeat split; try lia.
    + apply ratio_pct_range; lia.
    + apply ratio_pct_range; lia.
    + rewrite Hsum. unfold py_len. rewrite L4. reflexivity.
  - cbn [py_bind]. eexists. split; [reflexivity|].
    cbn [syn_total syn_accepted syn_blocked success_rate_pct avg_pps].
    repeat split; try lia; try discriminate.
    rewrite Hsum. unfold py_len. rewrite L4. reflexivity.
Qed.

Lemma X10_witness :
  exists r,
    monitor_iptables [((3, 0), 1%Q); ((10, 40), (5 # 2)%Q)] = Ok r
    /\ syn_total r = 10 + 40
    /\ syn_accepted r = 10
    /\ syn_blocked r = 40
    /\ (0 <= success_rate_pct r <= 100)%Q
    /\ (10 + 40 = 0 -> success_rate_pct r = 0%Q)
    /\ (0 < 10 + 40 ->
        success_rate_pct r = (inject_Z 10 / inject_Z (10 + 40) * 100)%Q)
    /\ (avg_pps r
        == inject_Z (10 + 40)
           / inject_Z (Z.of_nat
                         (length [((3, 0), 1%Q); ((10, 40), (5 # 2)%Q)])))%Q.
Proof.
  apply (X10_iptables_monitor_summary
           [((3, 0), 1%Q); ((10, 40), (5 # 2)%Q)] 10 40).
  - reflexivity.
  - lia.
  - lia.
Defined.

(* ================================================================== *)
(** * The rule table across setup and cleanup *)

Module IptablesMainFacts.
Import Iptables IptablesMain.
Local Open Scope string_scope.


Lemma flushed_chains_empty (t : table) :
  Forall (fun cr => builtin cr.1 = true /\ cr.2 = []) (chains (flushed t)).
Proof.
  unfold flushed. cbn [chains].
  induction (chains t) as [|[c rs] cs IH]; [constructor|].
  cbn [fmap list_fmap]. rewrite filter_cons.
  destruct (decide _) as [Hb|Hb]; [|exact IH].
  constructor; [split; [exact Hb | reflexivity] | exact IH].
Qed.

Lemma flushed_fixed (cs : list (string * list rule)) :
  Forall (fun cr => builtin cr.1 = true /\ cr.2 = []) cs ->
  filter (fun cr => builtin cr.1 = true) (flush_chain <$> cs) = cs.
Proof.
  induction 1 as [|[c rs] cs [Hb Hrs] _ IH]; [reflexivity|].
  cbn in Hb, Hrs. subst rs. cbn [fmap list_fmap]. rewrite filter_cons.
  unfold flush_chain at 1 2. cbn [fst snd].
  destruct (decide _) as [H|H]; [|done]. by rewrite IH.
Qed.

Lemma append_rule_names (c : string) (r : rule)
    (cs cs' : list (string * list rule)) :
  append_rule c r cs = Some cs' ->
  flush_chain <$> cs' = flush_chain <$> cs.
Proof.
  revert cs'. induction cs as [|[c' rs] cs IH]; intros cs' H; [discriminate|].
  cbn [append_rule] in H. destruct (String.eqb c c').
  - by injection H as <-.
  - destruct (append_rule c r cs) as [cs''|]; [|discriminate].
    injection H as <-. cbn [fmap list_fmap]. by rewrite (IH cs'').
Qed.

Lemma append_cmd_names (c : string) (spec : list string) (t t' : table) :
  iptables ("sudo" :: "iptables" :: "-A" :: c :: spec) t = Some t' ->
  flushed t' = flushed t.
Proof.
  cbn [iptables].
  destruct (parse_rule spec any_rule) as [r|]; [|discriminate].
  destruct (append_rule c r (chains t)) as [cs|] eqn:Ha; [|discriminate].
  intros [= <-]. unfold flushed. cbn [chains].
  by rewrite (append_rule_names c r _ _ Ha).
Qed.

Lemma flushed_idem (t : table) : flushed (flushed t) = flushed t.
Proof.
  unfold flushed at 1.
  rewrite (flushed_fixed _ (flushed_chains_empty t)). by destruct (flushed t).
Qed.

(** Appending keeps what a later flush would leave. *)
Lemma run_checked_appends_flushed (cmds : list (list string)) :
  Forall (fun c => exists ch spec,
            c = "sudo" :: "iptables" :: "-A" :: ch :: spec) cmds ->
  forall t, flushed (run_checked cmds t).1 = flushed t.
Proof.
  induction 1 as [|c cmds (ch & spec & ->) _ IH]; intros t; [reflexivity|].
  cbn [run_checked].
  destruct (iptables _ t) as [t'|] eqn:E; [|reflexivity].
  rewrite IH. by eapply append_cmd_names.
Qed.

Lemma setup_split (t : table) :
  run_checked setup_iptables t
  = run_checked (drop 2 setup_iptables) (flushed t).
Proof.
  unfold setup_iptables. cbn [drop].
  change (run_checked ?cmds t)
    with (match iptables ["sudo"; "iptables"; "-F"] t with
          | Some t' => run_checked (List.tl cmds) t'
          | None => (t, false)
          end).
  cbn [iptables List.tl].
  change (run_checked (?c :: ?cmds) ?t0)
    with (match iptables c t0 with
          | Some t' => run_checked cmds t'
          | None => (t0, false)
          end) at 1.
  cbn [iptables chains].
  rewrite IptablesFacts.flush_all_empty. reflexivity.
Qed.

Lemma setup_appends :
  Forall (fun c => exists ch spec,
            c = "sudo" :: "iptables" :: "-A" :: ch :: spec)
    (drop 2 setup_iptables).
Proof. repeat constructor; eexists _, _; reflexivity. Qed.

End IptablesMainFacts.


Lemma run_all_checked (cmds : list (list string)) (t : Iptables.table) :
  Iptables.run_all cmds t
  = if (IptablesMain.run_checked cmds t).2
    then Some (IptablesMain.run_checked cmds t).1
    else None.
Proof.
  revert t. induction cmds as [|c cmds IH]; intros t; [reflexivity|].
  cbn [Iptables.run_all IptablesMain.run_checked].
  destruct (Iptables.iptables c t) as [t'|]; [apply IH | reflexivity].
Qed.

(** X12. [setup_iptables] is idempotent: run again on the table it has
    produced, it succeeds and produces that same table, so restarting the
    script never stacks up duplicate rules. *)
Theorem X12_setup_is_idempotent (t t1 : Iptables.table) :
  Iptables.run_all Iptables.setup_iptables t = Some t1 ->
  Iptables.run_all Iptables.setup_iptables t1 = Some t1.
Proof.
  intros H. rewrite <- H. rewrite !run_all_checked.
  rewrite run_all_checked in H.
  rewrite (IptablesMainFacts.setup_split t1).
  rewrite (IptablesMainFacts.setup_split t) in H |- *.
  destruct (IptablesMain.run_checked _ (IptablesMain.flushed t))
    as [t' ok] eqn:E.
  cbn [fst snd] in H. destruct ok; [|discriminate]. injection H as ->.
  pose proof (IptablesMainFacts.run_checked_appends_flushed _
                IptablesMainFacts.setup_appends (IptablesMain.flushed t))
    as Hf.
  rewrite E in Hf. cbn [fst] in Hf.
  rewrite IptablesMainFacts.flushed_idem in Hf. by rewrite Hf, E.
Qed.

Lemma X12_witness :
  exists t1,
    Iptables.run_all Iptables.setup_iptables Iptables.sample_table = Some t1
    /\ Iptables.run_all Iptables.setup_iptables t1 = Some t1.
Proof.
  eexists. split; [vm_compute; reflexivity|].
  apply (X12_setup_is_idempotent Iptables.sample_table).
  vm_compute. reflexivity.
Defined.

(* ================================================================== *)
(** * The HTTP metrics collector *)

Module CollectorFacts.
Import Collector.





End CollectorFacts.


Lemma collect_loop_count_limit (timeout : Q) (dur : option Q) (n : Z)
    (inputs : list Collector.attempt) :
  0 < n ->
  forall (rc : Z) (m : Collector.metrics),
    rc <= n ->
    let '(_, rc', st) :=
      Collector.collect_loop timeout dur (Some n) inputs rc m in
    rc' <= n
    /\ (Collector.truthy_q dur = false ->
        n - rc < Z.of_nat (length inputs) ->
        rc' = n /\ st = Collector.CountReached).
Proof.
  intros Hn. induction inputs as [|a inputs IH]; intros rc m Hrc.
  - cbn [Collector.collect_loop length]. split; [lia|]. intros _ H. lia.
  - cbn [Collector.collect_loop length Collector.truthy_z default
         from_option id].
    destruct (Collector.truthy_q dur) eqn:Hd; cbn [andb].
    + destruct (Collector.q_gt _ _); [split; [lia | discriminate]|].
      replace (negb (n =? 0)) with true by lia. cbn [andb].
      destruct (rc >=? n) eqn:E; [split; [lia | discriminate]|].
      specialize (IH (rc + 1) (Collector.store timeout
                      (Collector.make_request timeout
                         (Collector.start_time a) (Collector.outcome a)
                         (Collector.stamp a)) m) ltac:(lia)).
      destruct (Collector.collect_loop _ _ _ _ _ _) as [[m' rc'] st].
      split; [apply IH | discriminate].
    + replace (negb (n =? 0)) with true by lia. cbn [andb].
      destruct (rc >=? n) eqn:E.
      * split; [lia|]. intros _ _. split; [lia | reflexivity].
      * specialize (IH (rc + 1) (Collector.store timeout
                      (Collector.make_request timeout
                         (Collector.start_time a) (Collector.outcome a)
                         (Collector.stamp a)) m) ltac:(lia)).
        destruct (Collector.collect_loop _ _ _ _ _ _) as [[m' rc'] st].
        split; [apply IH|]. intros _ Hlen. apply IH; [reflexivity | lia].
Qed.

(** X14. With [max_requests = n > 0] the collector never makes more than
    [n] requests; and if no duration limit is set and it is not
    interrupted before (more than [n] passes are available), it makes
    exactly [n] and stops on the count. *)
Theorem X14_max_requests_is_respected
    (timeout : Q) (duration_seconds : option Q) (n : Z)
    (inputs : list Collector.attempt) :
  0 < n ->
  let '(_, request_count, st) :=
    Collector.collect_metrics timeout duration_seconds (Some n) inputs in
  request_count <= n
  /\ (Collector.truthy_q duration_seconds = false ->
      n < Z.of_nat (length inputs) ->
      request_count = n /\ st = Collector.CountReached).
Proof.
  intros Hn. unfold Collector.collect_metrics.
  pose proof (collect_loop_count_limit timeout duration_seconds n inputs Hn
                0 Collector.empty_metrics ltac:(lia)) as H.
  destruct (Collector.collect_loop _ _ _ _ _ _) as [[m rc] st].
  split; [apply H|]. intros Hd Hlen. apply H; [exact Hd | lia].
Qed.

Lemma X14_witness :
  let '(_, request_count, st) :=
    Collector.collect_metrics 5 None (Some 2) Collector.sample_inputs in
  request_count <= 2
  /\ (Collector.truthy_q None = false ->
      2 < Z.of_nat (length Collector.sample_inputs) ->
      request_count = 2 /\ st = Collector.CountReached).
Proof.
  apply (X14_max_requests_is_respected 5 None 2 Collector.sample_inputs).
  lia.
Defined.

(** X15. A limit of zero is no limit: with [max_requests] and
    [duration_seconds] each [None] or 0, the loop never stops by itself;
    it makes a request on every pass until it is interrupted. In
    particular [--requests 0] does not mean "no request". *)
Theorem X15_zero_limits_are_ignored
    (timeout : Q) (duration_seconds : option Q) (max_requests : option Z)
    (inputs : list Collector.attempt) :
  Collector.truthy_q duration_seconds = false ->
  Collector.truthy_z max_requests = false ->
  let '(m, request_count, st) :=
    Collector.collect_metrics timeout duration_seconds max_requests inputs in
  request_count = Z.of_nat (length inputs)
  /\ st = Collector.Interrupted
  /\ length (Collector.response_times m) = length inputs.
Proof.
  intros Hd Hm. unfold Collector.collect_metrics.
  assert (H : forall rc m,
            let '(m', rc', st) :=
              Collector.collect_loop timeout duration_seconds max_requests
                inputs rc m in
            rc' = rc + Z.of_nat (length inputs)
            /\ st = Collector.Interrupted
            /\ length (Collector.response_times m')
               = (length (Collector.response_times m) + length inputs)%nat).
  { induction inputs as [|a inputs IH]; intros rc m.
    - cbn. split; [lia|]. split; [reflexivity | lia].
    - cbn [Collector.collect_loop length]. rewrite Hd, Hm. cbn [andb].
      specialize (IH (rc + 1) (Collector.store timeout
                      (Collector.make_request timeout
                         (Collector.start_time a) (Collector.outcome a)
                         (Collector.stamp a)) m)).
      destruct (Collector.collect_loop _ _ _ _ _ _) as [[m' rc'] st].
      destruct IH as (-> & -> & ->). split; [lia|]. split; [reflexivity|].
      unfold Collector.store. cbn [Collector.response_times].
      rewrite length_app. cbn [length]. lia. }
  specialize (H 0 Collector.empty_metrics).
  destruct (Collector.collect_loop _ _ _ _ _ _) as [[m rc] st].
  destruct H as (-> & -> & ->). cbn. done.
Qed.

Lemma X15_witness :
  let '(m, request_count, st) :=
    Collector.collect_metrics 5 (Some 0%Q) (Some 0) Collector.sample_inputs in
  request_count = Z.of_nat (length Collector.sample_inputs)
  /\ st = Collector.Interrupted
  /\ length (Collector.response_times m) = length Collector.sample_inputs.
Proof.
  apply (X15_zero_limits_are_ignored 5 (Some 0%Q) (Some 0)
           Collector.sample_inputs); reflexivity.
Defined.



(* ================================================================== *)
(** * The unsigned time difference *)

(** X18. [now - rv->last_ts] is an unsigned 64-bit subtraction: a clock
    reading earlier than the recorded window start wraps around to a huge
    difference, so in both variants the pure SYN of an unblocked source
    is treated as arriving after the window: the record is reset to
    [last_ts = now, count = 1] and the verdict is Pass, whatever the
    count was. *)
Theorem X18_earlier_clock_reading_resets_window
    (v : variant) (ctx : xdp_md) (now : Z) (s : bpf_state) (src : Z)
    (rv : rate_val) :
  is_pure_syn_from src ctx ->
  not_blocked v s src ->
  rate_limit_map s !! src = Some rv ->
  0 <= now < last_ts rv ->
  last_ts rv - now < 2 ^ 64 - TIME_WINDOW_NS ->
  exists s' l,
    program v ctx now s = Done XDP_PASS s' l
    /\ rate_limit_map s' !! src = Some {| last_ts := now; count := 1 |}.
Proof.
  intros Hv Hnb Hrv Hnow Hgap.
  apply pure_syn_fromb_view in Hv.
  destruct (step_src v src ctx now s Hv Hnb) as (s1 & l1 & H1 & Hr1 & _).
  rewrite Hrv in H1, Hr1.
  assert (He : expired rv now = true).
  { unfold expired, wrap64.
    replace (now - last_ts rv) with (2 ^ 64 - (last_ts rv - now) + -1 * 2 ^ 64)
      by lia.
    rewrite Z.mod_add by lia.
    rewrite Z.mod_small; unfold TIME_WINDOW_NS in *; lia. }
  unfold rl_verdict, rl_result in H1. unfold rl_result in Hr1.
  rewrite He in H1, Hr1. cbn [fst snd Z.eqb] in H1, Hr1.
  exists s1, l1. split; [exact H1|].
  rewrite Hr1, hash_update_present by eauto. apply lookup_insert_eq.
Qed.

Lemma X18_witness :
  exists s' l,
    program Transient syn_frame 40
      (with_maps {[ src_10_0_0_7 := {| last_ts := 100; count := 25 |} ]} ∅
         [25; 15])
    = Done XDP_PASS s' l
    /\ rate_limit_map s' !! src_10_0_0_7
       = Some {| last_ts := 40; count := 1 |}.
Proof.
  apply (X18_earlier_clock_reading_resets_window Transient syn_frame 40 _
           src_10_0_0_7 {| last_ts := 100; count := 25 |}).
  - reflexivity.
  - exact I.
  - vm_compute. reflexivity.
  - cbn. lia.
  - cbn. unfold TIME_WINDOW_NS. lia.
Defined.

(* ================================================================== *)
(** * C6: what the success rate is a rate of *)

(** In XDP_only.py the reported rate is the admitted pure SYNs over the
    pure SYNs seen, times 100, and 0 when none was seen: after a
    monitored run with at least one tick and fewer than 2^64 frames. *)
Lemma simple_monitor_rate_is_admitted_over_total
    (segs : list (list arrival * Q)) :
  segs <> [] ->
  Z.of_nat (length (all_traffic segs)) < 2 ^ 64 ->
  exists vs s l r,
    run xdp_simple_firewall init_simple (all_traffic segs) = Done vs s l
    /\ xdp_monitor Transient segs = Some (Ok r)
    /\ success_rate_pct r
       = if count_where is_pure_syn (all_traffic segs) >? 0
         then (inject_Z (count_where is_pure_syn (all_traffic segs)
                         - count_drops vs)
               / inject_Z (count_where is_pure_syn (all_traffic segs))
               * 100)%Q
         else 0%Q.
Proof.
  intros Hne Hlen.
  destruct (monitor_loop_inv Transient segs (loaded Transient) 0 no_samples 0)
    as (d & prev & s & vs & l & Hm & Hr & (L1 & L2 & L3 & L4) & Hsum & Hsy);
    [done | reflexivity |].
  destruct Hsy as (Ht & Hd & Hprev); [by left|].
  destruct (simple_counters_exact (all_traffic segs) Hlen)
    as (vs' & s0 & l' & Hr' & Hrc & _).
  cbn [program loaded] in Hr. rewrite Hr in Hr'. injection Hr' as <- <- <-.
  cbn [read_counters] in Ht, Hd. rewrite Hrc in Ht, Hd. cbn [fst snd] in Ht, Hd.
  assert (Hn : (0 < length segs)%nat) by (destruct segs; [done | cbn; lia]).
  assert (Hc : cpu_usages d <> [])
    by (destruct (cpu_usages d); [cbn in L3; lia | done]).
  assert (Hp : pps_rates d <> [])
    by (destruct (pps_rates d); [cbn in L4; lia | done]).
  eexists vs, s, l, _. split; [exact Hr|].
  split; [unfold xdp_monitor; rewrite Hm; f_equal;
          exact (xdp_summary_ok d _ _ Ht Hd Hc Hp)|].
  reflexivity.
Qed.

(** C6. The blocklist monitor does not report admitted / total * 100. On
    fifty pure SYNs of one source inside one window the program passes
    ten and drops forty, yet its monitor subtracts the number of blocked
    addresses, 1, from the total and reports 49 accepted and a success
    rate of 98; XDP_only.py on the same traffic reports 10 accepted and
    20. *)
Theorem C6_blocklist_rate_is_not_admitted_over_total :
  count_where is_pure_syn (all_traffic flood_segs) = 50
  /\ verdicts (run xdp_firewall init_blocklist (all_traffic flood_segs))
     = Some (replicate 10 XDP_PASS ++ replicate 40 XDP_DROP)
  /\ (exists r,
        xdp_monitor Persistent flood_segs = Some (Ok r)
        /\ syn_total r = 50 /\ syn_blocked r = 1 /\ syn_accepted r = 49
        /\ (success_rate_pct r == 98)%Q)
  /\ (exists r,
        xdp_monitor Transient flood_segs = Some (Ok r)
        /\ syn_total r = 50 /\ syn_blocked r = 40 /\ syn_accepted r = 10
        /\ (success_rate_pct r == 20)%Q).
Proof.
  split; [vm_compute; reflexivity|].
  split; [vm_compute; reflexivity|].
  split.
  - eexists. split; [vm_compute; reflexivity|].
    cbn [syn_total syn_blocked syn_accepted success_rate_pct].
    repeat split; reflexivity.
  - eexists. split; [vm_compute; reflexivity|].
    cbn [syn_total syn_blocked syn_accepted success_rate_pct].
    repeat split; reflexivity.
Qed.
